(** * Citation harvesting and affiliation resolution

    A shallow embedding of [scholar_citations.py] (class
    [GoogleScholarScraper]) and [scrape_affliations.py] (class
    [ComprehensiveAffiliationFinder]), and the properties of the
    specification proved or refuted against it.

    Python strings are sequences of Unicode code points; integers are
    unbounded; a dictionary with a fixed key set is a record; an exception
    is an explicit outcome. *)

From Stdlib Require Import Ascii String.
From Stdlib Require Import List Bool Arith ZArith NArith QArith Lia.
From Stdlib Require Import Permutation Sorted.
From Stdlib Require DecimalString DecimalNat.
Import ListNotations.

Set Implicit Arguments.
Close Scope Q_scope.

(** ** Python strings *)

Module PyStr.

(** One element per code point, as [str] indexes them. *)
Definition pystr := list N.

Definition str_eqb (a b : pystr) : bool :=
  if list_eq_dec N.eq_dec a b then true else false.

(** Literals: the code points of an ASCII string. *)
Definition lit (s : string) : pystr :=
  map N_of_ascii (list_ascii_of_string s).

(** [bool(s)] for a string: non-empty. *)
Definition truthy (s : pystr) : bool :=
  match s with [] => false | _ :: _ => true end.

(** [s.startswith(p)]. *)
Fixpoint is_prefix (p s : pystr) : bool :=
  match p, s with
  | [], _ => true
  | _ :: _, [] => false
  | a :: p', b :: s' => N.eqb a b && is_prefix p' s'
  end.

(** [needle in hay]: the needle occurs at some offset of the haystack. *)
Fixpoint str_in (needle hay : pystr) : bool :=
  is_prefix needle hay
  || match hay with
     | [] => false
     | _ :: t => str_in needle t
     end.

(** [sep.join(parts)]. *)
Fixpoint join (sep : pystr) (parts : list pystr) : pystr :=
  match parts with
  | [] => []
  | [p] => p
  | p :: rest => p ++ sep ++ join sep rest
  end.

(** [s.split(sep)] for a non-empty separator: left to right, occurrences do
    not overlap. [skip] counts the characters of a separator already
    recognised that are still to be passed over; [cur] is the current part,
    reversed. *)
Fixpoint split_from (sep : pystr) (skip : nat) (cur s : pystr) : list pystr :=
  match s with
  | [] => [rev cur]
  | c :: t =>
      match skip with
      | S k => split_from sep k cur t
      | O =>
          if is_prefix sep s
          then rev cur :: split_from sep (length sep - 1) [] t
          else split_from sep 0 (c :: cur) t
      end
  end.

Definition split (sep s : pystr) : list pystr := split_from sep 0 [] s.

(** [s.replace(pat, "")] for a non-empty pattern. *)
Fixpoint remove_from (pat : pystr) (skip : nat) (s : pystr) : pystr :=
  match s with
  | [] => []
  | c :: t =>
      match skip with
      | S k => remove_from pat k t
      | O =>
          if is_prefix pat s
          then remove_from pat (length pat - 1) t
          else c :: remove_from pat 0 t
      end
  end.

Definition remove_all (pat s : pystr) : pystr := remove_from pat 0 s.

(** The characters [str.isspace] accepts, which [strip()] removes. *)
Definition is_space (c : N) : bool :=
  ((9 <=? c) && (c <=? 13) || (28 <=? c) && (c <=? 32)
   || (c =? 133) || (c =? 160) || (c =? 5760)
   || (8192 <=? c) && (c <=? 8202)
   || (c =? 8232) || (c =? 8233) || (c =? 8239) || (c =? 8287)
   || (c =? 12288))%N.

Fixpoint lstrip (s : pystr) : pystr :=
  match s with
  | [] => []
  | c :: t => if is_space c then lstrip t else s
  end.

Definition rstrip (s : pystr) : pystr := rev (lstrip (rev s)).

Definition strip (s : pystr) : pystr := rstrip (lstrip s).

(** Comparison of two strings by [<]: lexicographic on code points. *)
Fixpoint str_compare (a b : pystr) : comparison :=
  match a, b with
  | [], [] => Eq
  | [], _ :: _ => Lt
  | _ :: _, [] => Gt
  | x :: a', y :: b' =>
      match N.compare x y with
      | Eq => str_compare a' b'
      | c => c
      end
  end.

(** The part of the Unicode character database the programs consult through
    [\d], [str.isdigit], [int] and [str.lower]. The tables themselves are
    not fixed here; the laws are the facts about them that the proofs use,
    and they hold for every version of the database. *)
Class UnicodeDB := {
  (** value of a character of category Nd (decimal digit), if it is one:
      the characters [\d] matches in a [str] pattern and [int] reads *)
  decimal_value : N -> option N;
  (** characters [str.isdigit] accepts: decimal digits and the other
      characters with a digit value, such as superscript digits *)
  is_digit : N -> bool;
  (** [str.lower] *)
  lower : pystr -> pystr;
  decimal_value_ascii :
    forall c, (48 <= c <= 57)%N -> decimal_value c = Some (c - 48)%N;
  decimal_value_digit :
    forall c v, decimal_value c = Some v -> is_digit c = true;
  is_digit_ascii :
    forall c, (c < 128)%N -> is_digit c = true -> (48 <= c <= 57)%N;
  lower_empty : lower [] = []
}.

Section WithUnicode.
Context {U : UnicodeDB}.

(** [\d] in a [str] pattern without the ASCII flag. *)
Definition is_decimal (c : N) : bool :=
  match decimal_value c with Some _ => true | None => false end.

(** [s.isdigit()]: at least one character, all of them digits. *)
Definition isdigit (s : pystr) : bool := truthy s && forallb is_digit s.

Fixpoint int_from (acc : Z) (s : pystr) : option Z :=
  match s with
  | [] => Some acc
  | c :: t =>
      match decimal_value c with
      | Some v => int_from (10 * acc + Z.of_N v) t
      | None => None
      end
  end.

(** [int(s)] on a string without sign, blank or underscore (every string
    that passes [isdigit] is one): the base-10 value when every character
    is a decimal digit, [None] for [ValueError]. *)
Definition int (s : pystr) : option Z :=
  match s with
  | [] => None
  | _ :: _ => int_from 0 s
  end.

End WithUnicode.

(** Tables that agree with the Unicode character database on the code
    points they list: the ASCII, Arabic-Indic (U+0660..U+0669) and fullwidth
    (U+FF10..U+FF19) decimal digits, the superscript digits U+00B2, U+00B3
    and U+00B9 (digits that are not decimal), and the lower-case mapping of
    the ASCII letters. The concrete runs below, whose inputs are made of
    these and of other ASCII characters, use them. *)
Definition sample_decimal_value (c : N) : option N :=
  if ((48 <=? c) && (c <=? 57))%N then Some (c - 48)%N
  else if ((1632 <=? c) && (c <=? 1641))%N then Some (c - 1632)%N
  else if ((65296 <=? c) && (c <=? 65305))%N then Some (c - 65296)%N
  else None.

Definition sample_is_digit (c : N) : bool :=
  match sample_decimal_value c with
  | Some _ => true
  | None => ((c =? 178) || (c =? 179) || (c =? 185))%N
  end.

Definition sample_lower_char (c : N) : N :=
  if ((65 <=? c) && (c <=? 90))%N then (c + 32)%N else c.

Definition sample_lower (s : pystr) : pystr := map sample_lower_char s.

Definition sample_db : UnicodeDB :=
  {| decimal_value := sample_decimal_value;
     is_digit := sample_is_digit;
     lower := sample_lower;
     decimal_value_ascii := ltac:(
       intros c [Hlo Hhi]; unfold sample_decimal_value;
       apply N.leb_le in Hlo; apply N.leb_le in Hhi;
       rewrite Hlo, Hhi; reflexivity);
     decimal_value_digit := ltac:(
       intros c v H; unfold sample_is_digit; rewrite H; reflexivity);
     is_digit_ascii := ltac:(
       intros c Hc; unfold sample_is_digit, sample_decimal_value;
       destruct (N.leb_spec 48 c); destruct (N.leb_spec c 57); simpl;
       try lia;
       destruct (N.leb_spec 1632 c); destruct (N.leb_spec c 1641); simpl;
       try lia;
       destruct (N.leb_spec 65296 c); destruct (N.leb_spec c 65305); simpl;
       try lia;
       destruct (N.eqb_spec c 178); destruct (N.eqb_spec c 179);
       destruct (N.eqb_spec c 185); simpl; try lia; discriminate);
     lower_empty := eq_refl |}.

End PyStr.

(** ** scholar_citations.py *)

Module Scholar.
Import PyStr.

(** *** The fetcher: [_get_random_delay] and [_make_request] *)

(** [random.uniform(2.0, 4.0)] is [2.0 + (4.0 - 2.0) * random()]; [u] is
    the sample [random()] returned, taken as an exact rational. *)
Definition get_random_delay (u : Q) : Q := (2 + (4 - 2) * u)%Q.

(** What one [session.get] does: a response with a status code and a body,
    or an exception. *)
Inductive reply :=
| Status (code : Z) (text : pystr)
| TransportError.

(** What the fetcher does to the outside world, in order. *)
Inductive effect :=
| Get (attempt : nat)
| Sleep (seconds : Q).

(** The body of [for attempt in range(retries)], over the attempts still to
    make. [server k] is the outcome of the request of attempt [k] and
    [rand k] the random sample drawn during attempt [k], if one is drawn. *)
Fixpoint attempts (server : nat -> reply) (rand : nat -> Q) (retries : Z)
    (todo : list nat) : list effect * option pystr :=
  match todo with
  | [] => ([], None)
  | attempt :: rest =>
      match server attempt with
      | Status code text =>
          if (code =? 200)%Z then ([Get attempt], Some text)
          else if (code =? 429)%Z then
            let wait_time := ((Z.of_nat attempt + 1) * 60)%Z in
            let (tr, r) := attempts server rand retries rest in
            (Get attempt :: Sleep (inject_Z wait_time) :: tr, r)
          else
            let (tr, r) := attempts server rand retries rest in
            (Get attempt :: tr, r)
      | TransportError =>
          if (Z.of_nat attempt <? retries - 1)%Z then
            let (tr, r) := attempts server rand retries rest in
            (Get attempt :: Sleep (get_random_delay (rand attempt)) :: tr, r)
          else
            let (tr, r) := attempts server rand retries rest in
            (Get attempt :: tr, r)
      end
  end.

Definition make_request (server : nat -> reply) (rand : nat -> Q)
    (retries : Z) : list effect * option pystr :=
  attempts server rand retries (seq 0 (Z.to_nat retries)).

(** *** Parsed pages *)

(** The title heading [h3.gs_rt] of a result block: its text and, when it
    contains an anchor, the anchor's [href] attribute if it has one. *)
Record heading := {
  heading_text : pystr;
  heading_anchor : option (option pystr)
}.

(** A result block [div.gs_r.gs_or.gs_scl], as [find] and [get_text] see
    it. *)
Record result_block := {
  title_section : option heading;
  byline : option pystr;
  summary : option pystr
}.

(** A page: its result blocks and, when the pagination footer [div#gs_n]
    is there, the texts of its links. *)
Record page := {
  results : list result_block;
  footer : option (list pystr)
}.

(** The dictionary [_parse_citing_paper] returns. *)
Record ParsedPaper := {
  title : pystr;
  authors : pystr;
  venue : pystr;
  year : pystr;
  link : pystr;
  snippet : pystr
}.

(** The same with the key [cited_paper] that [_get_citations_for_paper]
    adds. *)
Record CitationRecord := {
  paper : ParsedPaper;
  cited_paper : pystr
}.

Section WithUnicode.
Context {U : UnicodeDB}.

(** *** [_get_total_citation_pages] *)

(** [[int(p.text) for p in pages if p.text.isdigit()]]; [None] when [int]
    raises [ValueError]. *)
Fixpoint label_numbers (labels : list pystr) : option (list Z) :=
  match labels with
  | [] => Some []
  | l :: rest =>
      if isdigit l then
        match int l with
        | Some n =>
            match label_numbers rest with
            | Some ns => Some (n :: ns)
            | None => None
            end
        | None => None
        end
      else label_numbers rest
  end.

(** [max] of a list; [None] for the [ValueError] on an empty one. *)
Definition py_max (l : list Z) : option Z :=
  match l with
  | [] => None
  | x :: t => Some (fold_left Z.max t x)
  end.

Definition get_total_citation_pages (p : page) : Z :=
  match results p with
  | [] => 0
  | _ :: _ =>
      match footer p with
      | Some ((_ :: _) as pages) =>
          match label_numbers pages with
          | Some ns =>
              match py_max ns with
              | Some m => m
              | None => 1
              end
          | None => 1
          end
      | _ => 1
      end
  end.

(** *** [_parse_citing_paper] *)

(** One step of [re.search(r'20\d{2}|19\d{2}', ...)]: does the pattern
    match at the start of [s]? The alternatives are tried in order. *)
Definition year_here (s : pystr) : bool :=
  match s with
  | a :: b :: c :: d :: _ =>
      ((a =? 50)%N && (b =? 48)%N && is_decimal c && is_decimal d)
      || ((a =? 49)%N && (b =? 57)%N && is_decimal c && is_decimal d)
  | _ => false
  end.

(** The search proper: the match at the leftmost offset, as
    [year_match.group(0)], or [None]. *)
Fixpoint search_year (s : pystr) : option pystr :=
  if year_here s then Some (firstn 4 s)
  else match s with
       | [] => None
       | _ :: t => search_year t
       end.

(** [None] stands for the empty dictionary returned when the body raises:
    indexing ['href'] on an anchor that has no such attribute. *)
Definition parse_citing_paper (b : result_block) : option ParsedPaper :=
  let title := match title_section b with
               | Some h => heading_text h
               | None => []
               end in
  match (match title_section b with
         | Some h =>
             match heading_anchor h with
             | Some (Some url) => Some url
             | Some None => None
             | None => Some []
             end
         | None => Some []
         end) with
  | None => None
  | Some link =>
      let byline_text := match byline b with Some t => t | None => [] end in
      let parts := split (lit " - ") byline_text in
      let authors := nth 0 parts [] in
      let venue := nth 1 parts [] in
      let year := match search_year byline_text with
                  | Some y => y
                  | None => []
                  end in
      let snippet_text := match summary b with Some t => t | None => [] end in
      Some {| title := title; authors := authors; venue := venue;
              year := year; link := link; snippet := snippet_text |}
  end.

(** The loop over the result blocks of one page in
    [_get_citations_for_paper]: empty dictionaries are skipped. *)
Fixpoint citations_of_blocks (cited_paper_title : pystr)
    (blocks : list result_block) : list CitationRecord :=
  match blocks with
  | [] => []
  | b :: rest =>
      match parse_citing_paper b with
      | Some d =>
          {| paper := d; cited_paper := cited_paper_title |}
            :: citations_of_blocks cited_paper_title rest
      | None => citations_of_blocks cited_paper_title rest
      end
  end.

(** *** [get_all_citations]: filter, accumulate, sort *)

(** The condition of the comprehension,
    [c.get('year') and c['year'].isdigit() and int(c['year']) >= min_year];
    [None] when [int] raises. *)
Definition keeps (min_year : Z) (c : CitationRecord) : option bool :=
  if negb (truthy (year (paper c))) then Some false
  else if negb (isdigit (year (paper c))) then Some false
  else match int (year (paper c)) with
       | Some y => Some (min_year <=? y)%Z
       | None => None
       end.

Fixpoint comprehension (min_year : Z) (citations : list CitationRecord)
    : option (list CitationRecord) :=
  match citations with
  | [] => Some []
  | c :: rest =>
      match keeps min_year c with
      | None => None
      | Some b =>
          match comprehension min_year rest with
          | None => None
          | Some kept => Some (if b then c :: kept else kept)
          end
      end
  end.

(** [if min_year: citations = [...]]: [None] and [0] are falsy. *)
Definition filter_by_year (min_year : option Z)
    (citations : list CitationRecord) : option (list CitationRecord) :=
  match min_year with
  | None => Some citations
  | Some m => if (m =? 0)%Z then Some citations else comprehension m citations
  end.

(** The loop over the profile's publications. An entry of [fetched] is the
    result of [_get_citations_for_paper] for a publication with a cited-by
    link, [None] for one without. A publication whose filtering raises is
    skipped by the handler of the loop body. *)
Fixpoint accumulate (min_year : option Z)
    (fetched : list (option (list CitationRecord))) : list CitationRecord :=
  match fetched with
  | [] => []
  | entry :: rest =>
      match entry with
      | Some citations =>
          match filter_by_year min_year citations with
          | Some kept => kept
          | None => []
          end
      | None => []
      end ++ accumulate min_year rest
  end.

End WithUnicode.

(** [sort_values(by=['year', 'title'], ascending=[False, True])]: the rows
    in the order of the keys, rows with equal keys in their original order.
    [precedes a b]: [a] may stand before [b]. *)
Definition precedes (a b : CitationRecord) : bool :=
  match str_compare (year (paper b)) (year (paper a)) with
  | Lt => true
  | Gt => false
  | Eq =>
      match str_compare (title (paper a)) (title (paper b)) with
      | Gt => false
      | _ => true
      end
  end.

Fixpoint insert_row (x : CitationRecord) (l : list CitationRecord)
    : list CitationRecord :=
  match l with
  | [] => [x]
  | y :: rest => if precedes x y then x :: l else y :: insert_row x rest
  end.

Fixpoint sort_values (rows : list CitationRecord) : list CitationRecord :=
  match rows with
  | [] => []
  | x :: rest => insert_row x (sort_values rest)
  end.

Definition get_all_citations {U : UnicodeDB} (min_year : option Z)
    (fetched : list (option (list CitationRecord))) : list CitationRecord :=
  sort_values (accumulate min_year fetched).

(** *** The properties as the specification words them *)

Section Stated.
Context {U : UnicodeDB}.

(** A record the year filter is meant to drop: its year is present, numeric
    and below the minimum. *)
Definition below_minimum (min_year : Z) (c : CitationRecord) : Prop :=
  exists y, isdigit (year (paper c)) = true
            /\ int (year (paper c)) = Some y /\ (y < min_year)%Z.

(** "The year filter drops exactly those records whose year is present and
    numeric and less than the minimum." *)
Definition drops_exactly_below_minimum (min_year : Z)
    (citations kept : list CitationRecord) : Prop :=
  forall c, In c citations -> (In c kept <-> ~ below_minimum min_year c).

(** What the comprehension of the filter keeps: a year that is present,
    numeric and at least the minimum. *)
Definition at_least (min_year : Z) (c : CitationRecord) : bool :=
  isdigit (year (paper c))
  && match int (year (paper c)) with
     | Some y => (min_year <=? y)%Z
     | None => false
     end.

(** [n] is the maximum integer among the digit-only labels. *)
Definition max_digit_label (labels : list pystr) (n : Z) : Prop :=
  (exists l, In l labels /\ isdigit l = true /\ int l = Some n)
  /\ forall l v, In l labels -> isdigit l = true -> int l = Some v ->
                 (v <= n)%Z.

(** "Pagination discovery returns 0 for a page with zero result blocks, 1
    for a page with at least one result block and no pagination control
    region, and, when a pagination control region is present, the maximum
    integer among its digit-only link labels." The last case is read for a
    page that has result blocks, and for labels among which there is an
    integer. *)
Definition page_count_as_specified (p : page) (n : Z) : Prop :=
  (results p = [] -> n = 0%Z)
  /\ (results p <> [] -> footer p = None -> n = 1%Z)
  /\ (forall labels, results p <> [] -> footer p = Some labels ->
        (exists l v, In l labels /\ isdigit l = true /\ int l = Some v) ->
        max_digit_label labels n).

Definition ascii_digit (c : N) : bool := ((48 <=? c) && (c <=? 57))%N.

(** "A string of exactly 4 ASCII digits beginning with 19 or 20." *)
Definition ascii_year (y : pystr) : Prop :=
  length y = 4 /\ forallb ascii_digit y = true
  /\ (is_prefix (lit "19") y = true \/ is_prefix (lit "20") y = true).

(** "The year field is either the empty string or a string of exactly 4
    ASCII digits beginning with 19 or 20, namely the first such substring
    found anywhere in the byline." *)
Definition year_as_specified (text y : pystr) : Prop :=
  y = []
  \/ (ascii_year y
      /\ exists pre post, text = pre ++ y ++ post
           /\ forall pre' y' post', text = pre' ++ y' ++ post' ->
                ascii_year y' -> length pre <= length pre').

(** What the pattern matches: "20" or "19" and two decimal digits. *)
Definition year_shaped (y : pystr) : Prop :=
  exists c d, (y = [50; 48; c; d]%N \/ y = [49; 57; c; d]%N)
              /\ is_decimal c = true /\ is_decimal d = true.

End Stated.

(** Order of the sort keys: year descending, then title ascending, both as
    strings. *)
Definition in_order (a b : CitationRecord) : Prop :=
  str_compare (year (paper b)) (year (paper a)) = Lt
  \/ (year (paper a) = year (paper b)
      /\ str_compare (title (paper a)) (title (paper b)) <> Gt).

(** Rows with the sort keys [y] and [t]. *)
Definition has_keys (y t : pystr) (c : CitationRecord) : bool :=
  str_eqb (year (paper c)) y && str_eqb (title (paper c)) t.

(** *** Concrete inputs *)

Definition citation (y t : pystr) : CitationRecord :=
  {| paper := {| title := t; authors := []; venue := []; year := y;
                 link := []; snippet := [] |};
     cited_paper := lit "Cited" |}.

(** Years ["2020", "2018", "", "abc"]. *)
Definition four_years : list CitationRecord :=
  [citation (lit "2020") (lit "A"); citation (lit "2018") (lit "B");
   citation [] (lit "C"); citation (lit "abc") (lit "D")].

Definition empty_block : result_block :=
  {| title_section := None; byline := None; summary := None |}.

(** One result block, a footer with the links "1", "2", "5". *)
Definition page_of_five : page :=
  {| results := [empty_block];
     footer := Some [lit "1"; lit "2"; lit "5"] |}.

(** One result block, a footer with the links U+00B2 (superscript two) and
    "5". *)
Definition page_with_superscript : page :=
  {| results := [empty_block]; footer := Some [[178%N]; lit "5"] |}.

(** A byline in which "20" is followed by the Arabic-Indic digits one and
    two, before an ASCII year. *)
Definition mixed_digit_byline : pystr :=
  lit "J Doe - Venue 20" ++ [1633; 1634]%N ++ lit ", 2015 - example.org".

Definition mixed_digit_block : result_block :=
  {| title_section := None; byline := Some mixed_digit_byline;
     summary := None |}.

Definition plain_block : result_block :=
  {| title_section :=
       Some {| heading_text := lit "A study";
               heading_anchor := Some (Some (lit "https://example.org/p")) |};
     byline := Some (lit "J Doe, A Roe - Nature, 2015 - nature.com");
     summary := Some (lit "We study") |}.

(** The server answers 500, then 200. *)
Definition server_500_then_200 (attempt : nat) : reply :=
  match attempt with
  | O => Status 500 []
  | _ => Status 200 (lit "ok")
  end.

(** The connection fails once, then the server answers 200. *)
Definition server_error_then_200 (attempt : nat) : reply :=
  match attempt with
  | O => TransportError
  | _ => Status 200 (lit "ok")
  end.

(** The records (2019, "B"), (2020, "A") and (no year, "C"). *)
Definition three_records : list CitationRecord :=
  [citation (lit "2019") (lit "B"); citation (lit "2020") (lit "A");
   citation [] (lit "C")].

End Scholar.

(** ** scrape_affliations.py *)

Module Affiliations.
Import PyStr.

(** *** Responses of the three services *)

(** What one [requests.get(...)], [raise_for_status()] and [json()] give:
    a [RequestException] (which the [search_*] methods catch), a decoded
    body, or a body of a shape on which the method raises something else
    (a missing key, a value of another type), which it does not catch. *)
Inductive response (A : Type) :=
| RequestFailed
| Body (data : A)
| Unexpected.
Arguments RequestFailed {A}.
Arguments Unexpected {A}.

(** An element of an author's ["affiliation"] list: a dictionary, with or
    without the key ["name"], or anything else. *)
Inductive crossref_affiliation :=
| AffiliationDict (name : option pystr)
| AffiliationOther.

(** An absent key is [None]. *)
Record crossref_author := {
  given : option pystr;
  family : option pystr;
  affiliation : option (list crossref_affiliation)
}.

Record crossref_item := {
  DOI : option pystr;
  author : option (list crossref_author)
}.

Record institution := {
  institution_display_name : option pystr;
  city : option pystr;
  region : option pystr;
  country : option pystr
}.

Record authorship := {
  author_display_name : option pystr;
  institutions : option (list institution)
}.

Record s2_author := {
  s2_name : option pystr;
  s2_affiliations : option (list pystr)
}.

(** The services, as functions of what is asked: Crossref of the title
    queried, which answers with [data["message"]["items"]]; OpenAlex and
    Semantic Scholar of the DOI, which answer with the value under
    ["authorships"] and ["authors"], [None] when the key is absent. *)
Record services := {
  crossref : pystr -> response (list crossref_item);
  openalex : pystr -> response (option (list authorship));
  semantic_scholar : pystr -> response (option (list s2_author))
}.

(** *** Results and effects *)

(** A row of [results]. *)
Record AffiliationRecord := {
  paper_title : pystr;
  author_name : pystr;
  affiliations : pystr;
  doi : pystr
}.

Inductive source := Crossref | OpenAlex | SemanticScholar.

(** The effects of a pass, in order: a request to a service, a row appended
    to [results], the rows written over [output_file]. *)
Inductive event :=
| Query (s : source) (key : pystr)
| Appended (r : AffiliationRecord)
| Saved (rows : list AffiliationRecord).

Inductive result (A : Type) :=
| Ok (a : A)
| Raised.
Arguments Raised {A}.

(** A computation reads and updates the list [results], logs its effects
    and returns or raises; what it did to [results] before raising
    stays. *)
Definition M (A : Type) : Type :=
  list AffiliationRecord -> list AffiliationRecord * list event * result A.

Definition ret {A} (a : A) : M A := fun s => (s, [], Ok a).

Definition raise {A} : M A := fun s => (s, [], Raised).

Definition bind {A B} (m : M A) (f : A -> M B) : M B :=
  fun s =>
    match m s with
    | (s1, l1, Ok a) =>
        match f a s1 with
        | (s2, l2, r) => (s2, l1 ++ l2, r)
        end
    | (s1, l1, Raised) => (s1, l1, Raised)
    end.

(** [try: m except Exception: h]. *)
Definition catch {A} (m : M A) (h : M A) : M A :=
  fun s =>
    match m s with
    | (s1, l1, Ok a) => (s1, l1, Ok a)
    | (s1, l1, Raised) =>
        match h s1 with
        | (s2, l2, r) => (s2, l1 ++ l2, r)
        end
    end.

Definition emit (e : event) : M unit := fun s => (s, [e], Ok tt).

(** [results.append(r)]. *)
Definition append (r : AffiliationRecord) : M unit :=
  fun s => (s ++ [r], [Appended r], Ok tt).

(** [pd.DataFrame(results).to_csv(output_file, index=False)]. *)
Definition save : M unit := fun s => (s, [Saved s], Ok tt).

Notation "x <- m ;; k" := (bind m (fun x => k))
  (at level 61, m at next level, right associativity).
Notation "m ;; k" := (bind m (fun _ => k))
  (at level 61, right associativity).

Fixpoint for_each {A} (l : list A) (body : A -> M unit) : M unit :=
  match l with
  | [] => ret tt
  | x :: rest => body x ;; for_each rest body
  end.

Definition default {A} (d : A) (o : option A) : A :=
  match o with Some a => a | None => d end.

(** Truth value of [d.get(key)] for a string-valued key. *)
Definition present (o : option pystr) : bool :=
  match o with Some s => truthy s | None => false end.

Definition is_empty {A} (l : list A) : bool :=
  match l with [] => true | _ :: _ => false end.

(** *** [clean_title] and the [search_*] methods *)

Definition clean_title (title : pystr) : pystr :=
  strip (remove_all (lit "[HTML]") title).

Section WithServices.
Context {U : UnicodeDB}.
Variable env : services.

Definition search_crossref (title : pystr) : M (option crossref_item) :=
  emit (Query Crossref (clean_title title)) ;;
  match crossref env (clean_title title) with
  | RequestFailed => ret None
  | Body (item :: _) => ret (Some item)
  | Body [] => ret None
  | Unexpected => raise
  end.

(** The pairs (author, affiliation) of one element of ["authorships"]. *)
Definition authorship_affiliations (a : authorship) : list (pystr * pystr) :=
  let author_name := default [] (author_display_name a) in
  flat_map
    (fun inst =>
       let inst_name := default [] (institution_display_name inst) in
       let location_parts :=
         (if present (city inst) then [default [] (city inst)] else [])
         ++ (if present (region inst) then [default [] (region inst)] else [])
         ++ (if present (country inst) then [default [] (country inst)] else [])
       in
       let full_affiliation :=
         if is_empty location_parts then inst_name
         else inst_name ++ lit ", " ++ join (lit ", ") location_parts in
       if truthy author_name && truthy full_affiliation
       then [(author_name, full_affiliation)] else [])
    (default [] (institutions a)).

Definition search_openalex (doi : option pystr)
    : M (option (list (pystr * pystr))) :=
  if negb (present doi) then ret None
  else
    emit (Query OpenAlex (default [] doi)) ;;
    match openalex env (default [] doi) with
    | RequestFailed => ret None
    | Body data =>
        let affiliations :=
          flat_map authorship_affiliations (default [] data) in
        ret (if is_empty affiliations then None else Some affiliations)
    | Unexpected => raise
    end.

Definition s2_author_affiliations (a : s2_author) : list (pystr * pystr) :=
  let author_name := default [] (s2_name a) in
  flat_map
    (fun affiliation =>
       if truthy author_name && truthy affiliation
       then [(author_name, affiliation)] else [])
    (default [] (s2_affiliations a)).

Definition search_semantic_scholar (doi : option pystr)
    : M (option (list (pystr * pystr))) :=
  if negb (present doi) then ret None
  else
    emit (Query SemanticScholar (default [] doi)) ;;
    match semantic_scholar env (default [] doi) with
    | RequestFailed => ret None
    | Body data =>
        let affiliations :=
          flat_map s2_author_affiliations (default [] data) in
        ret (if is_empty affiliations then None else Some affiliations)
    | Unexpected => raise
    end.

(** *** [process_papers] *)

(** [f"{author.get('given', '')} {author.get('family', '')}".strip()]. *)
Definition full_name (a : crossref_author) : pystr :=
  strip (default [] (given a) ++ lit " " ++ default [] (family a)).

(** The names collected from [author["affiliation"]]. *)
Definition embedded_affiliations (a : crossref_author) : list pystr :=
  flat_map
    (fun x =>
       match x with
       | AffiliationDict (Some name) => [name]
       | _ => []
       end)
    (default [] (affiliation a)).

(** [name.lower() in aff_author.lower() or aff_author.lower() in
    name.lower()]. *)
Definition name_matches (name aff_author : pystr) : bool :=
  str_in (lower name) (lower aff_author)
  || str_in (lower aff_author) (lower name).

(** The affiliations of the pairs whose author matches, in order. *)
Definition matching (name : pystr) (found : list (pystr * pystr))
    : list pystr :=
  map snd (filter (fun p => name_matches name (fst p)) found).

(** The part of the loop body over the authors that computes
    [affiliations]. *)
Definition resolve_affiliations (doi : option pystr) (a : crossref_author)
    : M (list pystr) :=
  let name := full_name a in
  let affiliations := embedded_affiliations a in
  affiliations <-
    (if is_empty affiliations && present doi then
       openalex_affiliations <- search_openalex doi ;;
       ret (affiliations ++ matching name (default [] openalex_affiliations))
     else ret affiliations) ;;
  affiliations <-
    (if is_empty affiliations && present doi then
       semantic_affiliations <- search_semantic_scholar doi ;;
       ret (affiliations ++ matching name (default [] semantic_affiliations))
     else ret affiliations) ;;
  ret affiliations.

(** The dictionary [result]. *)
Definition result_row (title : pystr) (doi : option pystr)
    (a : crossref_author) (affiliations : list pystr) : AffiliationRecord :=
  {| paper_title := title;
     author_name := full_name a;
     affiliations :=
       if is_empty affiliations then lit "Not found"
       else join (lit "; ") affiliations;
     doi := if present doi then default [] doi else lit "Not found" |}.

(** The body of the loop over the authors. *)
Definition process_author (title : pystr) (doi : option pystr)
    (a : crossref_author) : M unit :=
  affiliations <- resolve_affiliations doi a ;;
  append (result_row title doi a affiliations).

(** The body of the [try] for one title. An item that is an empty
    dictionary is falsy, and has no authors either way. *)
Definition process_paper (title : pystr) : M unit :=
  paper_data <- search_crossref title ;;
  match paper_data with
  | Some item =>
      for_each (default [] (author item)) (process_author title (DOI item))
  | None => ret tt
  end ;;
  save.

(** [existing] is what [pd.read_csv(output_file).to_dict('records')] gives,
    [None] when the file does not exist. The rows are taken as they are
    read, not as an earlier pass wrote them; a file that [pd.read_csv]
    cannot read (one written without rows, which has no columns) makes the
    call raise before the first title and is no value of [existing]. The
    result is the final [results] and the effects of the pass. Progress
    messages, the two counters and the pause between papers are left
    out. *)
Definition process_papers (titles : list pystr) (start_index : nat)
    (existing : option (list AffiliationRecord))
    : list AffiliationRecord * list event :=
  let results := default [] existing in
  match for_each (skipn start_index titles)
          (fun title => catch (process_paper title) (ret tt)) results with
  | (final, log, _) => (final, log)
  end.

End WithServices.

(** *** Reading a log *)

(** The rows appended, in order. *)
Definition appended (log : list event) : list AffiliationRecord :=
  flat_map (fun e => match e with Appended r => [r] | _ => [] end) log.

(** The requests made, in order. *)
Definition queries (log : list event) : list source :=
  flat_map (fun e => match e with Query s _ => [s] | _ => [] end) log.

(** The rows in [output_file] after the effects [log], from the rows
    [before]. *)
Definition on_disk (before : list AffiliationRecord) (log : list event)
    : list AffiliationRecord :=
  fold_left (fun rows e => match e with Saved r => r | _ => rows end)
    log before.

(** *** Invariants of computations *)

(** The rows written at each save are [s] followed by the rows appended
    until then, for a computation started with [results = s]. *)
Fixpoint saves_ok (s : list AffiliationRecord) (log : list event) : Prop :=
  match log with
  | [] => True
  | Saved rows :: rest => rows = s /\ saves_ok s rest
  | Appended r :: rest => saves_ok (s ++ [r]) rest
  | Query _ _ :: rest => saves_ok s rest
  end.

(** A computation only ever appends to [results] and saves all of it. *)
Definition tracks {A} (m : M A) : Prop :=
  forall s,
    match m s with
    | (s', log, _) => s' = s ++ appended log /\ saves_ok s log
    end.

(** The effect [e] of a run from the empty list, in a run from [s]. *)
Definition shift (s : list AffiliationRecord) (e : event) : event :=
  match e with
  | Saved rows => Saved (s ++ rows)
  | _ => e
  end.

(** A computation does the same from any [results], which it only
    extends. *)
Definition framed {A} (m : M A) : Prop :=
  forall s,
    m s = match m [] with
          | (d, log, r) => (s ++ d, map (shift s) log, r)
          end.

(** In a log, every request to Semantic Scholar comes right after a request
    to OpenAlex for the same DOI. *)
Definition secondary_first (log : list event) : Prop :=
  forall pre key post,
    log = pre ++ Query SemanticScholar key :: post ->
    exists pre', pre = pre' ++ [Query OpenAlex key].

(** A computation whose requests are in that order, whatever [results]
    is. *)
Definition requests_in_order {A} (m : M A) : Prop :=
  forall s, secondary_first (snd (fst (m s))).

(** *** The properties as the specification words them *)

(** The (paper, author) pair of a row. *)
Definition pair_of (r : AffiliationRecord) : pystr * pystr :=
  (paper_title r, author_name r).

(** How many rows there are for a pair. *)
Definition occurrences (p : pystr * pystr) (rows : list AffiliationRecord)
    : nat :=
  length
    (filter
       (fun r => str_eqb (fst (pair_of r)) (fst p)
                 && str_eqb (snd (pair_of r)) (snd p))
       rows).

(** "Re-running the affiliation pass with start_index=0 against an
    already-complete checkpoint file produces a result set with no
    duplicate (paper, author) pairs: the loaded prior results are the
    starting point and are not duplicated by reprocessing." The file is
    complete when the rows loaded from it are those of a pass from index 0
    without a file; they are not duplicated when every pair is in the
    result as often as in the rows loaded. *)
Definition rerun_adds_no_duplicates {U : UnicodeDB} (env : services)
    (titles : list pystr) : Prop :=
  forall loaded : list AffiliationRecord,
    loaded = fst (process_papers env titles 0 None) ->
    forall p,
      occurrences p (fst (process_papers env titles 0 (Some loaded)))
      = occurrences p loaded.

(** "The on-disk checkpoint sequence is append-only and monotonically
    growing, and at every point in time its length equals the count of
    (paper, author) pairs fully processed so far", for a pass that starts
    without a file: a point in time is a prefix of the effects. *)
Definition checkpoint_as_specified (log : list event) : Prop :=
  (forall d1 d2 rest, log = d1 ++ d2 ++ rest ->
     exists ext, on_disk [] (d1 ++ d2) = on_disk [] d1 ++ ext)
  /\ (forall done rest, log = done ++ rest ->
        length (on_disk [] done) = length (appended done)).

(** *** Concrete inputs *)

Definition ada : crossref_author :=
  {| given := Some (lit "Ada"); family := Some (lit "Lovelace");
     affiliation := Some [AffiliationDict (Some (lit "Analytical Society"))] |}.

Definition charles : crossref_author :=
  {| given := Some (lit "Charles"); family := Some (lit "Babbage");
     affiliation := None |}.

Definition nameless : crossref_author :=
  {| given := None; family := None; affiliation := None |}.

Definition notes : crossref_item :=
  {| DOI := Some (lit "10.1000/notes"); author := Some [ada] |}.

(** Crossref knows one paper, with one author and one affiliation. *)
Definition one_author : services :=
  {| crossref := fun _ => Body [notes];
     openalex := fun _ => RequestFailed;
     semantic_scholar := fun _ => RequestFailed |}.

Definition ada_row : AffiliationRecord :=
  {| paper_title := lit "Notes"; author_name := lit "Ada Lovelace";
     affiliations := lit "Analytical Society";
     doi := lit "10.1000/notes" |}.

(** Crossref lists two authors, the second without an affiliation, and the
    answer of OpenAlex has a shape the code does not expect. *)
Definition second_author_fails : services :=
  {| crossref := fun _ =>
       Body [{| DOI := Some (lit "10.1000/notes");
                author := Some [ada; charles] |}];
     openalex := fun _ => Unexpected;
     semantic_scholar := fun _ => RequestFailed |}.

Definition cambridge : institution :=
  {| institution_display_name := Some (lit "University of Cambridge");
     city := None; region := None; country := None |}.

Definition turin : institution :=
  {| institution_display_name := Some (lit "University of Turin");
     city := None; region := None; country := None |}.

(** OpenAlex knows the affiliations of two authors. *)
Definition openalex_knows : services :=
  {| crossref := fun _ => RequestFailed;
     openalex := fun _ =>
       Body (Some [{| author_display_name := Some (lit "Charles Babbage");
                      institutions := Some [cambridge] |};
                   {| author_display_name := Some (lit "Luigi Menabrea");
                      institutions := Some [turin] |}]);
     semantic_scholar := fun _ => RequestFailed |}.

End Affiliations.

(** ** Reading the effects of the fetcher *)

Module Traces.
Import PyStr Scholar.

(** The attempts for which a request went out, in order. *)
Definition gets (l : list effect) : list nat :=
  flat_map (fun e => match e with Get k => [k] | Sleep _ => [] end) l.

(** The waits, in order. *)
Definition sleeps (l : list effect) : list Q :=
  flat_map (fun e => match e with Sleep d => [d] | Get _ => [] end) l.

(** An attempt that is answered with status 200. *)
Definition succeeds (server : nat -> reply) (attempt : nat) : Prop :=
  exists text, server attempt = Status 200 text.

(** What an attempt that is not answered with 200 does before the
    next. *)
Definition after_failure (server : nat -> reply) (rand : nat -> Q)
    (retries : Z) (a : nat) : list effect :=
  match server a with
  | Status code _ =>
      if (code =? 429)%Z
      then [Get a; Sleep (inject_Z ((Z.of_nat a + 1) * 60))]
      else [Get a]
  | TransportError =>
      if (Z.of_nat a <? retries - 1)%Z
      then [Get a; Sleep (get_random_delay (rand a))]
      else [Get a]
  end.

(** The title heading of the block has an anchor without [href]. *)
Definition anchor_without_href (b : result_block) : bool :=
  match title_section b with
  | Some h =>
      match heading_anchor h with
      | Some None => true
      | _ => false
      end
  | None => false
  end.

(** No occurrence of [sep] starts at one of the first [n] offsets of
    [s]. *)
Definition none_starts_before (sep : pystr) (n : nat) (s : pystr) : Prop :=
  forall p, p < n -> is_prefix sep (skipn p s) = false.

End Traces.

(** ** scholar_citations.py: the collector and its requests *)

Module Collector.
Import PyStr Scholar Traces.

(** [str(n)] for a natural number. *)
Definition str_of_nat (n : nat) : pystr :=
  lit (DecimalString.NilZero.string_of_uint (Nat.to_uint n)).

(** The outside world of a run: the reply to the [n]-th request the run
    makes, which may depend on the URL asked; the random sample drawn while
    the [n]-th request is handled; the sample of the [n]-th pacing
    delay. *)
Record web := {
  reply_to : nat -> pystr -> reply;
  retry_sample : nat -> Q;
  pacing_sample : nat -> Q
}.

(** How many requests and pacing delays the run has made so far. *)
Record clock := {
  requests_made : nat;
  pauses_made : nat
}.

(** What a run does, in order. *)
Inductive action :=
| Requested (url : pystr)
| Waited (seconds : Q)
| Stored (filename : pystr) (rows : list CitationRecord).

Definition action_of (url : pystr) (e : effect) : action :=
  match e with
  | Get _ => Requested url
  | Sleep d => Waited d
  end.

(** [self._make_request(url)], with the default budget of 3 attempts. *)
Definition fetch (w : web) (url : pystr) (st : clock)
    : option pystr * list action * clock :=
  let run :=
    make_request (fun k => reply_to w (requests_made st + k) url)
      (fun k => retry_sample w (requests_made st + k)) 3 in
  (snd run, map (action_of url) (fst run),
   {| requests_made := requests_made st + length (gets (fst run));
      pauses_made := pauses_made st |}).

(** [time.sleep(self._get_random_delay())]. *)
Definition pause (w : web) (st : clock) : list action * clock :=
  ([Waited (get_random_delay (pacing_sample w (pauses_made st)))],
   {| requests_made := requests_made st;
      pauses_made := S (pauses_made st) |}).

(** A row [tr.gsc_a_tr] of the profile page: the text of its title link
    [a.gsc_a_at] when it has one, and, when it has a link [a.gsc_a_ac], the
    [href] attribute of that link if there is one. *)
Record profile_row := {
  row_title : option pystr;
  row_cited_by : option (option pystr)
}.

(** The library functions applied to text that comes from outside: the
    HTML parser, as the view of a response that the code reads;
    [parse_qs(urlparse(href).query)], [None] when it raises; and
    [urlencode]. *)
Record library := {
  soup_page : pystr -> page;
  soup_rows : pystr -> list profile_row;
  query_of : pystr -> option (list (pystr * list pystr));
  urlencode : list (pystr * pystr) -> pystr
}.

Definition base_url : pystr := lit "https://scholar.google.com".

(** [params[key]] on a dictionary given by its items. *)
Fixpoint lookup (key : pystr) (params : list (pystr * list pystr))
    : option (list pystr) :=
  match params with
  | [] => None
  | (k, v) :: rest => if str_eqb k key then Some v else lookup key rest
  end.

(** [_extract_cluster_id]: an exception gives [None]. *)
Definition extract_cluster_id (lib : library) (href : pystr)
    : option pystr :=
  match query_of lib href with
  | Some params =>
      match lookup (lit "cites") params with
      | Some (first :: _) => Some first
      | Some [] => None
      | None => None
      end
  | None => None
  end.

(** [_get_cited_by_url]. *)
Definition get_cited_by_url (lib : library) (row : profile_row)
    : option pystr :=
  match row_cited_by row with
  | Some (Some href) =>
      match extract_cluster_id lib href with
      | Some cluster_id =>
          if truthy cluster_id then
            Some (base_url ++ lit "/scholar?"
                  ++ urlencode lib [(lit "cites", cluster_id);
                                    (lit "hl", lit "en");
                                    (lit "sciodt", lit "0,5")])
          else None
      | None => None
      end
  | _ => None
  end.

(** The URL of a page of results: the feed URL itself for page 0. *)
Definition page_url (cited_by_url : pystr) (page : nat) : pystr :=
  match page with
  | O => cited_by_url
  | S _ => cited_by_url ++ lit "&start=" ++ str_of_nat (page * 10)
  end.

Section WithUnicode.
Context {U : UnicodeDB}.
Variable w : web.
Variable lib : library.

(** The loop [for page in range(1, total_pages)] of
    [_get_citations_for_paper], over the pages still to fetch: a page that
    cannot be fetched, or is empty, ends the loop. *)
Fixpoint remaining_pages (cited_by_url cited_paper_title : pystr)
    (pages : list nat) (st : clock)
    : list CitationRecord * list action * clock :=
  match pages with
  | [] => ([], [], st)
  | page :: rest =>
      let start_idx := page * 10 in
      let url := cited_by_url ++ lit "&start=" ++ str_of_nat start_idx in
      match fetch w url st with
      | (Some ((_ :: _) as content), acts, st1) =>
          let found :=
            citations_of_blocks cited_paper_title
              (results (soup_page lib content)) in
          match pause w st1 with
          | (acts2, st2) =>
              match remaining_pages cited_by_url cited_paper_title rest st2
              with
              | (more, acts3, st3) =>
                  (found ++ more, acts ++ acts2 ++ acts3, st3)
              end
          end
      | (_, acts, st1) => ([], acts, st1)
      end
  end.

(** [_get_citations_for_paper]; its parameter [min_year] is not used. *)
Definition get_citations_for_paper (cited_by_url cited_paper_title : pystr)
    (st : clock) : list CitationRecord * list action * clock :=
  match fetch w cited_by_url st with
  | (Some ((_ :: _) as content), acts, st1) =>
      let total_pages := get_total_citation_pages (soup_page lib content) in
      if (total_pages =? 0)%Z then ([], acts, st1)
      else
        let first :=
          citations_of_blocks cited_paper_title
            (results (soup_page lib content)) in
        match remaining_pages cited_by_url cited_paper_title
                (seq 1 (Z.to_nat total_pages - 1)) st1 with
        | (more, acts2, st2) => (first ++ more, acts ++ acts2, st2)
        end
  | (_, acts, st1) => ([], acts, st1)
  end.

(** The title under which the citations of a row are recorded. *)
Definition paper_title_of (row : profile_row) : pystr :=
  match row_title row with
  | Some t => t
  | None => lit "Unknown Title"
  end.

(** The body of the loop over the rows of the profile, with its handler:
    what it adds to [all_citations]. When the year filter raises, the row
    adds nothing and the pause that ends the body is skipped. *)
Definition visit_row (min_year : option Z) (row : profile_row) (st : clock)
    : list CitationRecord * list action * clock :=
  match get_cited_by_url lib row with
  | Some ((_ :: _) as cited_by_url) =>
      match get_citations_for_paper cited_by_url (paper_title_of row) st
      with
      | (citations, acts, st1) =>
          match filter_by_year min_year citations with
          | Some kept =>
              match pause w st1 with
              | (acts2, st2) => (kept, acts ++ acts2, st2)
              end
          | None => ([], acts, st1)
          end
      end
  | _ =>
      match pause w st with
      | (acts2, st2) => ([], acts2, st2)
      end
  end.

Fixpoint visit_rows (min_year : option Z) (rows : list profile_row)
    (st : clock) : list CitationRecord * list action * clock :=
  match rows with
  | [] => ([], [], st)
  | row :: rest =>
      match visit_row min_year row st with
      | (kept, acts, st1) =>
          match visit_rows min_year rest st1 with
          | (more, acts2, st2) => (kept ++ more, acts ++ acts2, st2)
          end
      end
  end.

Definition profile_url (scholar_id : pystr) : pystr :=
  base_url ++ lit "/citations?user=" ++ scholar_id
  ++ lit "&hl=en&pagesize=100".

(** [get_all_citations] with its requests, from the first request of the
    run. [timestamp] is the formatted time at which the table is saved. The
    result is the rows of the data frame returned and what the run did. *)
Definition get_all_citations_run (timestamp scholar_id : pystr)
    (min_year : option Z) : list CitationRecord * list action :=
  match fetch w (profile_url scholar_id)
          {| requests_made := 0; pauses_made := 0 |} with
  | (Some ((_ :: _) as content), acts, st1) =>
      match visit_rows min_year (soup_rows lib content) st1 with
      | (all_citations, acts2, _) =>
          match all_citations with
          | [] => ([], acts ++ acts2)
          | _ :: _ =>
              let df := sort_values all_citations in
              let filename :=
                lit "scholar_citations_" ++ scholar_id ++ lit "_"
                ++ timestamp ++ lit ".csv" in
              (df, acts ++ acts2 ++ [Stored filename df])
          end
      end
  | (_, acts, _) => ([], acts)
  end.

(** What a row of the profile can add to the table: records tagged with
    its title, that pass the year filter. *)
Definition from_row (min_year : option Z) (row : profile_row)
    (c : CitationRecord) : Prop :=
  get_cited_by_url lib row <> None
  /\ cited_paper c = paper_title_of row
  /\ forall m, min_year = Some m -> m <> 0%Z -> at_least m c = true.

End WithUnicode.

(** *** Reading the actions of a run *)

(** The URLs requested, in order. *)
Definition requested (acts : list action) : list pystr :=
  flat_map (fun a => match a with Requested u => [u] | _ => [] end) acts.

(** The waits, in order. *)
Definition waited (acts : list action) : list Q :=
  flat_map (fun a => match a with Waited d => [d] | _ => [] end) acts.

(** The tables stored, in order. *)
Definition stored (acts : list action) : list (list CitationRecord) :=
  flat_map (fun a => match a with Stored _ rows => [rows] | _ => [] end)
    acts.

(** A wait the run may make: a jittered delay between 2 and 4 seconds, or
    the back-off of one of the three attempts of a fetch. *)
Definition allowed_wait (d : Q) : Prop :=
  ((2 <= d)%Q /\ (d <= 4)%Q)
  \/ exists k, (Z.of_nat k < 3)%Z /\ d = inject_Z ((Z.of_nat k + 1) * 60).

(** The random samples of the world lie in [0, 1]. *)
Definition samples_in_unit_interval (w : web) : Prop :=
  forall k, ((0 <= retry_sample w k)%Q /\ (retry_sample w k <= 1)%Q)
            /\ ((0 <= pacing_sample w k)%Q /\ (pacing_sample w k <= 1)%Q).

(** [counts] requests in a row for page 0, 1, 2, ... of a feed. *)
Fixpoint page_bursts (cited_by_url : pystr) (page : nat)
    (counts : list nat) : list pystr :=
  match counts with
  | [] => []
  | n :: rest =>
      repeat (page_url cited_by_url page) n
      ++ page_bursts cited_by_url (S page) rest
  end.

(** *** Concrete inputs *)

Definition block_of (heading_txt byline_txt : pystr) : result_block :=
  {| title_section :=
       Some {| heading_text := heading_txt; heading_anchor := None |};
     byline := Some byline_txt;
     summary := None |}.

(** A profile with two rows, the first with a cited-by link; the feed of
    the first has three pages according to its footer. *)
Definition small_library : library :=
  {| soup_page := fun content =>
       if str_eqb content (lit "page 0") then
         {| results := [block_of (lit "A") (lit "X - V, 2020")];
            footer := Some [lit "1"; lit "2"; lit "3"] |}
       else if str_eqb content (lit "page 1") then
         {| results := [block_of (lit "B") (lit "Y - V, 2019")];
            footer := None |}
       else {| results := []; footer := None |};
     soup_rows := fun _ =>
       [{| row_title := Some (lit "Mine");
           row_cited_by := Some (Some (lit "/scholar?cites=42")) |};
        {| row_title := None; row_cited_by := None |}];
     query_of := fun _ => Some [(lit "cites", [lit "42"])];
     urlencode := fun _ => lit "cites=42&hl=en&sciodt=0%2C5" |}.

Definition small_feed : pystr :=
  base_url ++ lit "/scholar?cites=42&hl=en&sciodt=0%2C5".

(** The profile and the pages 0 and 1 of the feed are served, page 0 after
    one transport error; page 2 is answered with status 500. *)
Definition small_web : web :=
  {| reply_to := fun n url =>
       if str_eqb url (Collector.profile_url (lit "ID")) then
         Status 200 (lit "profile")
       else if str_eqb url small_feed then
         match n with
         | 1 => TransportError
         | _ => Status 200 (lit "page 0")
         end
       else if str_eqb url (small_feed ++ lit "&start=10") then
         Status 200 (lit "page 1")
       else Status 500 [];
     retry_sample := fun _ => (1 # 2)%Q;
     pacing_sample := fun _ => (1 # 2)%Q |}.

(** Nothing can be reached. *)
Definition dead_web : web :=
  {| reply_to := fun _ _ => TransportError;
     retry_sample := fun _ => (1 # 2)%Q;
     pacing_sample := fun _ => (1 # 2)%Q |}.

End Collector.

(** ** Reading the effects of an affiliation pass *)

Module Resolver.
Import PyStr Affiliations.

(** The tables written, in order. *)
Definition saves (log : list event) : list (list AffiliationRecord) :=
  flat_map (fun e => match e with Saved rows => [rows] | _ => [] end) log.

(** Every effect of a computation satisfies [P], whatever [results] is. *)
Definition every {A} (P : event -> Prop) (m : M A) : Prop :=
  forall s, Forall P (snd (fst (m s))).

Definition not_a_save (e : event) : Prop :=
  match e with
  | Saved _ => False
  | _ => True
  end.

(** An effect that belongs to the paper [title]: a Crossref request for
    its cleaned title, a row with its title, or anything else. *)
Definition belongs_to (title : pystr) (e : event) : Prop :=
  match e with
  | Query Crossref key => key = clean_title title
  | Appended r => paper_title r = title
  | _ => True
  end.

(** An effect with a DOI in it has a non-empty one. *)
Definition has_doi (e : event) : Prop :=
  match e with
  | Query OpenAlex key => key <> []
  | Query SemanticScholar key => key <> []
  | Appended r => doi r <> []
  | _ => True
  end.

Definition not_a_row (e : event) : Prop :=
  match e with
  | Appended _ => False
  | _ => True
  end.

(** What identifies a row: title, author and DOI field. *)
Definition key_of (r : AffiliationRecord) : pystr * pystr * pystr :=
  (paper_title r, author_name r, doi r).

(** The DOI field of the rows of a paper. *)
Definition doi_field (d : option pystr) : pystr :=
  if present d then default [] d else lit "Not found".

(** [needle] occurs in [hay]. *)
Definition occurs (needle hay : pystr) : Prop :=
  exists pre post, hay = pre ++ needle ++ post.

(** A string that does not begin with white space. *)
Definition starts_clean (s : pystr) : Prop :=
  match s with
  | [] => True
  | c :: _ => is_space c = false
  end.

(** A string without white space at either end. *)
Definition trimmed (s : pystr) : Prop :=
  starts_clean s /\ starts_clean (rev s).

(** A pair of non-empty strings. *)
Definition both_present (p : pystr * pystr) : Prop :=
  fst p <> [] /\ snd p <> [].

(** Crossref has nothing for the title: the request fails or the answer
    has no items. *)
Definition nothing_found (env : services) (title : pystr) : Prop :=
  crossref env (clean_title title) = RequestFailed
  \/ crossref env (clean_title title) = Body [].

(** *** Concrete inputs *)

(** Crossref lists two authors, the second without an affiliation, which
    OpenAlex knows. *)
Definition two_sources : services :=
  {| crossref := fun _ =>
       Body [{| DOI := Some (lit "10.1000/notes");
                author := Some [ada; charles] |}];
     openalex := openalex openalex_knows;
     semantic_scholar := fun _ => RequestFailed |}.

Definition s2_knows : services :=
  {| crossref := fun _ => RequestFailed;
     openalex := fun _ => RequestFailed;
     semantic_scholar := fun _ =>
       Body (Some [{| s2_name := Some (lit "Ada Lovelace");
                      s2_affiliations :=
                        Some [lit "Analytical Society"; []] |};
                   {| s2_name := None;
                      s2_affiliations := Some [lit "Nowhere"] |}]) |}.

Definition charles_row : AffiliationRecord :=
  {| paper_title := lit "Notes"; author_name := lit "Charles Babbage";
     affiliations := lit "University of Cambridge";
     doi := lit "10.1000/notes" |}.

End Resolver.

(** * Properties of scholar_citations.py *)

Module ScholarFacts.
Import PyStr Scholar.

(** ** The fetcher *)

Lemma get_random_delay_bounds (u : Q) :
  (0 <= u)%Q -> (u <= 1)%Q ->
  (2 <= get_random_delay u)%Q /\ (get_random_delay u <= 4)%Q.
Proof.
  intros H0 H1. unfold get_random_delay. split.
  - setoid_replace (2 : Q) with (2 + 0)%Q at 1 by ring.
    apply Qplus_le_r.
    setoid_replace (0 : Q) with ((4 - 2) * 0)%Q by ring.
    apply Qmult_le_l; [reflexivity | exact H0].
  - setoid_replace (4 : Q) with (2 + (4 - 2) * 1)%Q at 2 by ring.
    apply Qplus_le_r. apply Qmult_le_l; [reflexivity | exact H1].
Qed.

(** The path the retry loop does pace: after a transport error on an
    attempt that is not the last, the next thing the fetcher does is wait
    the jittered delay, which lies in [2, 4]. *)
Lemma transport_error_waits server rand retries attempt rest :
  server attempt = TransportError ->
  (Z.of_nat attempt < retries - 1)%Z ->
  (0 <= rand attempt)%Q -> (rand attempt <= 1)%Q ->
  exists d tr,
    fst (attempts server rand retries (attempt :: rest))
      = Get attempt :: Sleep d :: tr
    /\ (2 <= d)%Q /\ (d <= 4)%Q.
Proof.
  intros Hs Hlt H0 H1. simpl. rewrite Hs.
  apply Z.ltb_lt in Hlt. rewrite Hlt.
  destruct (attempts server rand retries rest) as [tr r].
  exists (get_random_delay (rand attempt)), tr. split; [reflexivity |].
  apply get_random_delay_bounds; assumption.
Qed.

(** The path it does not: after a status other than 200 and 429 the loop
    goes straight on to the next attempt. *)
Lemma other_status_does_not_wait server rand retries attempt rest code text :
  server attempt = Status code text ->
  code <> 200%Z -> code <> 429%Z ->
  fst (attempts server rand retries (attempt :: rest))
    = Get attempt :: fst (attempts server rand retries rest).
Proof.
  intros Hs H200 H429. simpl. rewrite Hs.
  apply Z.eqb_neq in H200. apply Z.eqb_neq in H429. rewrite H200, H429.
  destruct (attempts server rand retries rest); reflexivity.
Qed.

(** C2, on the code: with a budget of 3 attempts and a server that answers
    500 and then 200, the first attempt fails with a status that is neither
    200 nor 429 and is not the last, and yet the second request follows
    it with no wait in between, whatever the random samples are. *)
Theorem no_delay_after_status_500 :
  forall rand,
    make_request server_500_then_200 rand 3
      = ([Get 0; Get 1], Some (lit "ok")).
Proof. intros rand. reflexivity. Qed.

(** ** The year filter *)

Section YearFilter.
Context {U : UnicodeDB}.

Lemma keeps_at_least m c :
  (isdigit (year (paper c)) = true -> int (year (paper c)) <> None) ->
  keeps m c = Some (at_least m c).
Proof.
  intros Hparse. unfold keeps, at_least.
  destruct (truthy (year (paper c))) eqn:Ht; simpl.
  - destruct (isdigit (year (paper c))) eqn:Hd; simpl; [| reflexivity].
    destruct (int (year (paper c))) eqn:Hi; [reflexivity |].
    exfalso. apply Hparse; reflexivity.
  - unfold isdigit. rewrite Ht. reflexivity.
Qed.

Lemma comprehension_filter m citations :
  (forall c, In c citations ->
     isdigit (year (paper c)) = true -> int (year (paper c)) <> None) ->
  comprehension m citations = Some (filter (at_least m) citations).
Proof.
  induction citations as [| c rest IH]; intros Hparse; simpl.
  - reflexivity.
  - rewrite keeps_at_least by (apply Hparse; left; reflexivity).
    rewrite IH by (intros d Hd; apply Hparse; right; exact Hd).
    destruct (at_least m c); reflexivity.
Qed.

Lemma at_least_spec m c :
  at_least m c = true <->
  exists y, isdigit (year (paper c)) = true
            /\ int (year (paper c)) = Some y /\ (m <= y)%Z.
Proof.
  unfold at_least. split.
  - intros H. apply andb_true_iff in H. destruct H as [Hd Hy].
    destruct (int (year (paper c))) as [y |]; [| discriminate].
    exists y. repeat split; [exact Hd | apply Z.leb_le; exact Hy].
  - intros [y [Hd [Hi Hy]]]. rewrite Hd, Hi. simpl.
    apply Z.leb_le. exact Hy.
Qed.

(** C1, as amended: with a minimum year that is not 0, on records whose
    digit-only years all read as integers, the filter keeps, in order,
    exactly the records whose year is present, digit-only and at least the
    minimum; a record whose year is absent or not numeric is dropped. *)
Theorem year_filter_keeps_numeric_at_least :
  forall (min_year : Z) (citations : list CitationRecord),
    min_year <> 0%Z ->
    (forall c, In c citations ->
       isdigit (year (paper c)) = true -> int (year (paper c)) <> None) ->
    exists kept,
      filter_by_year (Some min_year) citations = Some kept
      /\ kept = filter (at_least min_year) citations
      /\ (forall c, In c kept <->
            In c citations
            /\ exists y, isdigit (year (paper c)) = true
                         /\ int (year (paper c)) = Some y
                         /\ (min_year <= y)%Z)
      /\ (forall c, isdigit (year (paper c)) = false -> ~ In c kept).
Proof.
  intros m citations Hm Hparse.
  exists (filter (at_least m) citations). repeat split.
  - unfold filter_by_year. apply Z.eqb_neq in Hm. rewrite Hm.
    apply comprehension_filter. exact Hparse.
  - apply filter_In in H. tauto.
  - apply filter_In in H. apply at_least_spec. tauto.
  - intros [Hin Hy]. apply filter_In. split; [exact Hin |].
    apply at_least_spec. exact Hy.
  - intros c Hd Hin. apply filter_In in Hin. destruct Hin as [_ Hk].
    unfold at_least in Hk. rewrite Hd in Hk. discriminate.
Qed.

(** C9: a minimum year of [None] or of 0 switches the filter off, every
    record is kept; the comprehension itself, were it run with the bound 0,
    would drop a record without a year. *)
Theorem falsy_min_year_skips_filter :
  forall citations : list CitationRecord,
    filter_by_year None citations = Some citations
    /\ filter_by_year (Some 0%Z) citations = Some citations
    /\ comprehension 0 [citation [] (lit "C")] = Some [].
Proof. intros citations. repeat split. Qed.

End YearFilter.

(** C1, as stated, fails: of the years "2020", "2018", "", "abc" with the
    minimum 2019, only the record of "2020" is kept; the records with the
    empty and the non-numeric year are in the input, are not below the
    minimum, and are dropped. *)
Lemma year_filter_drops_missing_years :
  exists kept,
    filter_by_year (U := sample_db) (Some 2019%Z) four_years = Some kept
    /\ kept = [citation (lit "2020") (lit "A")]
    /\ ~ drops_exactly_below_minimum (U := sample_db) 2019 four_years kept.
Proof.
  exists [citation (lit "2020") (lit "A")].
  split; [reflexivity | split; [reflexivity |]].
  intros H.
  assert (Hin : In (citation [] (lit "C")) four_years)
    by (simpl; right; right; left; reflexivity).
  apply H in Hin. destruct Hin as [_ Hkeep].
  assert (Hnot : ~ below_minimum (U := sample_db) 2019 (citation [] (lit "C"))).
  { intros [y [Hd _]]. discriminate Hd. }
  apply Hkeep in Hnot. simpl in Hnot.
  destruct Hnot as [Heq | []]. discriminate Heq.
Qed.

(** The amended C1 at the years "2020", "2018", "", "abc" and the minimum
    2019. *)
Lemma year_filter_keeps_numeric_at_least_witness :
  exists kept,
    filter_by_year (U := sample_db) (Some 2019%Z) four_years = Some kept
    /\ kept = filter (at_least (U := sample_db) 2019) four_years
    /\ (forall c, In c kept <->
          In c four_years
          /\ exists y, isdigit (U := sample_db) (year (paper c)) = true
                       /\ int (U := sample_db) (year (paper c)) = Some y
                       /\ (2019 <= y)%Z)
    /\ (forall c, isdigit (U := sample_db) (year (paper c)) = false ->
          ~ In c kept).
Proof.
  apply (year_filter_keeps_numeric_at_least (U := sample_db)).
  - lia.
  - intros c Hin. simpl in Hin.
    destruct Hin as [<- | [<- | [<- | [<- | []]]]];
      vm_compute; congruence.
Defined.

(** ** Pagination discovery *)

Section Pagination.
Context {U : UnicodeDB}.

Lemma label_numbers_members labels :
  (forall l, In l labels -> isdigit l = true -> int l <> None) ->
  exists ns,
    label_numbers labels = Some ns
    /\ forall n, In n ns <->
         exists l, In l labels /\ isdigit l = true /\ int l = Some n.
Proof.
  induction labels as [| l rest IH]; intros Hparse.
  - exists []. split; [reflexivity |].
    intros n. split; [intros [] | intros [l [[] _]]].
  - destruct IH as [ns [Hns Hmem]].
    { intros l' Hin. apply Hparse. right. exact Hin. }
    simpl. destruct (isdigit l) eqn:Hd.
    + destruct (int l) as [v |] eqn:Hi.
      * rewrite Hns. exists (v :: ns). split; [reflexivity |].
        intros n. split.
        -- intros [<- | Hin].
           ++ exists l. auto using in_eq.
           ++ apply Hmem in Hin. destruct Hin as [l' [Hl' Hrest]].
              exists l'. split; [right; exact Hl' | exact Hrest].
        -- intros [l' [[<- | Hl'] [Hd' Hi']]].
           ++ left. congruence.
           ++ right. apply Hmem. exists l'. auto.
      * exfalso. apply (Hparse l (in_eq l rest) Hd Hi).
    + exists ns. split; [exact Hns |].
      intros n. rewrite Hmem. split.
      * intros [l' [Hl' Hrest]]. exists l'. split; [right; exact Hl' | exact Hrest].
      * intros [l' [[<- | Hl'] [Hd' Hi']]]; [congruence |].
        exists l'. auto.
Qed.

Lemma label_numbers_unreadable labels :
  (exists l, In l labels /\ isdigit l = true /\ int l = None) ->
  label_numbers labels = None.
Proof.
  induction labels as [| l rest IH]; intros [l' [Hin [Hd Hi]]].
  - destruct Hin.
  - simpl. destruct Hin as [<- | Hin].
    + rewrite Hd, Hi. reflexivity.
    + rewrite IH by (exists l'; auto).
      destruct (isdigit l); [destruct (int l) |]; reflexivity.
Qed.

Lemma label_numbers_no_digits labels :
  (forall l, In l labels -> isdigit l = false) ->
  label_numbers labels = Some [].
Proof.
  induction labels as [| l rest IH]; intros Hnone; simpl.
  - reflexivity.
  - rewrite (Hnone l (in_eq l rest)). apply IH.
    intros l' Hin. apply Hnone. right. exact Hin.
Qed.

Lemma fold_left_max_bounds (t : list Z) (x : Z) :
  In (fold_left Z.max t x) (x :: t)
  /\ (x <= fold_left Z.max t x)%Z
  /\ Forall (fun v => (v <= fold_left Z.max t x)%Z) t.
Proof.
  revert x. induction t as [| y t IH]; intros x; simpl.
  - split; [left; reflexivity | split; [lia | constructor]].
  - destruct (IH (Z.max x y)) as [Hin [Hle Hall]].
    split; [| split; [lia | constructor; [lia | exact Hall]]].
    destruct Hin as [Heq | Hin]; [| right; right; exact Hin].
    destruct (Z.max_spec x y) as [[_ Hm] | [_ Hm]]; rewrite Hm in *.
    + right. left. exact Heq.
    + left. exact Heq.
Qed.

Lemma page_count_max p labels :
  results p <> [] -> footer p = Some labels ->
  (forall l, In l labels -> isdigit l = true -> int l <> None) ->
  (exists l, In l labels /\ isdigit l = true) ->
  max_digit_label labels (get_total_citation_pages p).
Proof.
  unfold get_total_citation_pages.
  intros Hres -> Hparse [l0 [Hin0 Hd0]].
  destruct (results p) as [| blk blks]; [contradiction |].
  destruct labels as [| l1 rest]; [destruct Hin0 |].
  destruct (label_numbers_members (l1 :: rest) Hparse) as [ns [-> Hmem]].
  destruct ns as [| x t].
  - exfalso. destruct (int l0) as [v |] eqn:Hi.
    + apply (proj2 (Hmem v)). exists l0. auto.
    + apply (Hparse l0 Hin0 Hd0 Hi).
  - simpl py_max. cbv iota.
    destruct (fold_left_max_bounds t x) as [Hin [Hle Hall]].
    split.
    + apply Hmem in Hin. destruct Hin as [l [Hl [Hd Hi]]].
      exists l. auto.
    + intros l v Hl Hd Hi.
      assert (Hv : In v (x :: t)) by (apply Hmem; exists l; auto).
      destruct Hv as [<- | Hv]; [exact Hle |].
      rewrite Forall_forall in Hall. apply Hall. exact Hv.
Qed.

(** C4, as amended: the page count is 0 without result blocks and 1 with
    result blocks and no pagination footer; with result blocks and a
    footer, it is the maximum integer among the digit-only link labels when
    there is such a label and each of them reads as an integer, and 1 when
    no label is digit-only or one of them does not read as an integer. *)
Theorem page_count_cases :
  forall p : page,
    (results p = [] -> get_total_citation_pages p = 0%Z)
    /\ (results p <> [] -> footer p = None ->
        get_total_citation_pages p = 1%Z)
    /\ (forall labels,
          results p <> [] -> footer p = Some labels ->
          (forall l, In l labels -> isdigit l = true -> int l <> None) ->
          (exists l, In l labels /\ isdigit l = true) ->
          max_digit_label labels (get_total_citation_pages p))
    /\ (forall labels,
          results p <> [] -> footer p = Some labels ->
          (exists l, In l labels /\ isdigit l = true /\ int l = None)
          \/ (forall l, In l labels -> isdigit l = false) ->
          get_total_citation_pages p = 1%Z).
Proof.
  intros p.
  split; [| split; [| split]].
  - unfold get_total_citation_pages. intros ->. reflexivity.
  - unfold get_total_citation_pages. intros Hres ->.
    destruct (results p) as [| blk blks]; [contradiction | reflexivity].
  - intros labels. apply page_count_max.
  - unfold get_total_citation_pages. intros labels Hres -> Hcase.
    destruct (results p) as [| blk blks]; [contradiction |].
    destruct labels as [| l1 rest]; [reflexivity |].
    destruct Hcase as [Hbad | Hnone].
    + rewrite (label_numbers_unreadable _ Hbad). reflexivity.
    + rewrite (label_numbers_no_digits _ Hnone). reflexivity.
Qed.

End Pagination.

(** C4, as stated, fails: on a page with one result block and the footer
    links U+00B2 and "5", the label "5" is an integer and no label holds a
    larger one, yet the page count is 1. *)
Lemma page_count_ignores_labels_after_unreadable_digit :
  get_total_citation_pages (U := sample_db) page_with_superscript = 1%Z
  /\ ~ page_count_as_specified (U := sample_db) page_with_superscript
         (get_total_citation_pages (U := sample_db) page_with_superscript).
Proof.
  split; [reflexivity |].
  intros [_ [_ H]].
  destruct (H [[178%N]; lit "5"]) as [[l [Hin [_ Hi]]] _].
  - discriminate.
  - reflexivity.
  - exists (lit "5"), 5%Z. split; [right; left; reflexivity |].
    split; reflexivity.
  - destruct Hin as [<- | [<- | []]]; vm_compute in Hi; discriminate Hi.
Qed.

(** The amended C4 at the footer links "1", "2", "5": the page count is
    5. *)
Lemma page_count_cases_witness :
  get_total_citation_pages (U := sample_db) page_of_five = 5%Z
  /\ max_digit_label (U := sample_db) [lit "1"; lit "2"; lit "5"]
       (get_total_citation_pages (U := sample_db) page_of_five).
Proof.
  split; [reflexivity |].
  destruct (page_count_cases (U := sample_db) page_of_five)
    as [_ [_ [H _]]].
  apply H.
  - discriminate.
  - reflexivity.
  - intros l Hin.
    destruct Hin as [<- | [<- | [<- | []]]]; vm_compute; congruence.
  - exists (lit "1"). split; [left; reflexivity | reflexivity].
Defined.

(** ** The year of a record *)

Section Year.
Context {U : UnicodeDB}.

Lemma year_shaped_length y : year_shaped y -> length y = 4.
Proof. intros [c [d [[-> | ->] _]]]; reflexivity. Qed.

Lemma year_here_shaped s :
  year_here s = true <-> exists y rest, s = y ++ rest /\ year_shaped y.
Proof.
  split.
  - destruct s as [| a [| b [| c [| d rest]]]]; simpl; try discriminate.
    intros H. exists [a; b; c; d], rest. split; [reflexivity |].
    exists c, d. apply orb_true_iff in H.
    destruct H as [H | H];
      repeat (apply andb_true_iff in H; destruct H as [H ?]);
      apply N.eqb_eq in H; subst;
      match goal with E : (_ =? _)%N = true |- _ =>
        apply N.eqb_eq in E; subst end; auto.
  - intros [y [rest [-> [c [d [[-> | ->] [Hc Hd]]]]]]]; simpl;
      rewrite Hc, Hd; reflexivity.
Qed.

Lemma year_here_firstn s : year_here s = true -> year_shaped (firstn 4 s).
Proof.
  intros H. apply year_here_shaped in H.
  destruct H as [y [rest [-> Hy]]].
  rewrite <- (year_shaped_length Hy), firstn_app, Nat.sub_diag, firstn_all.
  simpl. rewrite app_nil_r. exact Hy.
Qed.

Lemma search_year_unfold s :
  search_year s
  = if year_here s then Some (firstn 4 s)
    else match s with
         | [] => None
         | _ :: t => search_year t
         end.
Proof. destruct s; reflexivity. Qed.

(** The search returns the match at the leftmost offset where the pattern
    matches, and nothing when it matches nowhere. *)
Lemma search_year_leftmost s :
  match search_year s with
  | Some y =>
      year_shaped y
      /\ exists pre post,
           s = pre ++ y ++ post
           /\ forall pre' y' post', s = pre' ++ y' ++ post' ->
                year_shaped y' -> length pre <= length pre'
  | None => forall pre y post, s = pre ++ y ++ post -> ~ year_shaped y
  end.
Proof.
  induction s as [| c t IH].
  - simpl. intros pre y post Heq Hy.
    apply year_shaped_length in Hy.
    symmetry in Heq. apply app_eq_nil in Heq. destruct Heq as [_ Heq].
    apply app_eq_nil in Heq. destruct Heq as [-> _]. discriminate Hy.
  - rewrite search_year_unfold.
    destruct (year_here (c :: t)) eqn:Hhere.
    + split; [apply year_here_firstn; exact Hhere |].
      exists [], (skipn 4 (c :: t)). split.
      * rewrite firstn_skipn. reflexivity.
      * intros. simpl. lia.
    + assert (Hfront : forall pre' y' post',
                c :: t = pre' ++ y' ++ post' -> year_shaped y' ->
                exists pre'', pre' = c :: pre'' /\ t = pre'' ++ y' ++ post').
      { intros pre' y' post' Heq Hy'. destruct pre' as [| c' pre''].
        - exfalso. simpl in Heq.
          assert (year_here (c :: t) = true)
            by (apply year_here_shaped; exists y', post'; auto).
          congruence.
        - simpl in Heq. injection Heq as <- ->. exists pre''. auto. }
      destruct (search_year t) as [y |].
      * destruct IH as [Hy [pre [post [Heq Hmin]]]].
        split; [exact Hy |].
        exists (c :: pre), post. split; [simpl; rewrite Heq; reflexivity |].
        intros pre' y' post' Heq' Hy'.
        destruct (Hfront pre' y' post' Heq' Hy') as [pre'' [-> Ht]].
        simpl. apply le_n_S. apply (Hmin pre'' y' post' Ht Hy').
      * intros pre' y' post' Heq' Hy'.
        destruct (Hfront pre' y' post' Heq' Hy') as [pre'' [-> Ht]].
        apply (IH pre'' y' post' Ht Hy').
Qed.

(** C6, as amended: the year of a record is the first substring of the
    byline made of "19" or "20" and two decimal digits (of any script, as
    [\d] accepts them), and is empty when the byline has no such
    substring. *)
Theorem year_is_leftmost_match :
  forall (b : result_block) (r : ParsedPaper),
    parse_citing_paper b = Some r ->
    let text := match byline b with Some t => t | None => [] end in
    (year r = []
     /\ forall pre y post, text = pre ++ y ++ post -> ~ year_shaped y)
    \/ (year_shaped (year r)
        /\ exists pre post,
             text = pre ++ year r ++ post
             /\ forall pre' y' post', text = pre' ++ y' ++ post' ->
                  year_shaped y' -> length pre <= length pre').
Proof.
  intros b r Hparse text. unfold parse_citing_paper in Hparse.
  fold text in Hparse.
  destruct (match title_section b with
            | Some h =>
                match heading_anchor h with
                | Some (Some url) => Some url
                | Some None => None
                | None => Some []
                end
            | None => Some []
            end) as [url |]; [| discriminate].
  injection Hparse as <-. simpl year.
  pose proof (search_year_leftmost text) as H.
  destruct (search_year text) as [y |]; [right | left]; auto.
Qed.

(** The years the extractor produces pass the tests of the year filter:
    a year that is there is digit-only and reads as an integer. *)
Lemma year_shaped_reads y :
  year_shaped y -> isdigit y = true /\ exists n, int y = Some n.
Proof.
  intros [c [d [Hy [Hc Hd]]]].
  unfold is_decimal in Hc, Hd.
  destruct (decimal_value c) as [vc |] eqn:Ec; [| discriminate].
  destruct (decimal_value d) as [vd |] eqn:Ed; [| discriminate].
  assert (H2 : decimal_value 50 = Some 2%N)
    by (apply decimal_value_ascii; lia).
  assert (H0 : decimal_value 48 = Some 0%N)
    by (apply decimal_value_ascii; lia).
  assert (H1 : decimal_value 49 = Some 1%N)
    by (apply decimal_value_ascii; lia).
  assert (H9 : decimal_value 57 = Some 9%N)
    by (apply decimal_value_ascii; lia).
  destruct Hy as [-> | ->]; unfold isdigit, int; simpl;
    rewrite ?H2, ?H0, ?H1, ?H9, Ec, Ed;
    rewrite ?(@decimal_value_digit _ _ _ H2), ?(@decimal_value_digit _ _ _ H0),
      ?(@decimal_value_digit _ _ _ H1), ?(@decimal_value_digit _ _ _ H9),
      (@decimal_value_digit _ _ _ Ec), (@decimal_value_digit _ _ _ Ed);
    (split; [reflexivity | eexists; reflexivity]).
Qed.

Lemma parse_year_cases b r :
  parse_citing_paper b = Some r -> year r = [] \/ year_shaped (year r).
Proof.
  unfold parse_citing_paper.
  destruct (match title_section b with
            | Some h =>
                match heading_anchor h with
                | Some (Some url) => Some url
                | Some None => None
                | None => Some []
                end
            | None => Some []
            end) as [url |]; [| discriminate].
  intros H. injection H as <-. simpl year.
  pose proof (search_year_leftmost
                (match byline b with Some t => t | None => [] end)) as H.
  destruct (search_year (match byline b with Some t => t | None => [] end));
    [right; apply H | left; reflexivity].
Qed.

Lemma extracted_years_read cited blocks c :
  In c (citations_of_blocks cited blocks) ->
  isdigit (year (paper c)) = true -> int (year (paper c)) <> None.
Proof.
  induction blocks as [| b rest IH]; simpl; [intros [] |].
  destruct (parse_citing_paper b) as [d |] eqn:Hp; [| exact IH].
  intros [<- | Hin]; [| apply IH; exact Hin].
  simpl. intros Hd.
  destruct (parse_year_cases b Hp) as [Hy | Hy].
  - rewrite Hy in Hd. discriminate Hd.
  - destruct (year_shaped_reads Hy) as [_ [n Hn]]. congruence.
Qed.

End Year.

(** C6, as stated, fails: in the byline "J Doe - Venue 20", U+0661, U+0662,
    ", 2015 - example.org" the year extracted is "20" followed by the two
    Arabic-Indic digits, which is neither empty nor four ASCII digits. *)
Lemma year_with_non_ascii_digits :
  exists r,
    parse_citing_paper (U := sample_db) mixed_digit_block = Some r
    /\ year r = [50; 48; 1633; 1634]%N
    /\ ~ year_as_specified mixed_digit_byline (year r).
Proof.
  eexists. split; [reflexivity |]. split; [reflexivity |].
  simpl year. intros [H | [[_ [H _]] _]]; discriminate H.
Qed.

(** The amended C6 on a block with the byline
    "J Doe, A Roe - Nature, 2015 - nature.com": the year is "2015". *)
Lemma year_is_leftmost_match_witness :
  exists r,
    parse_citing_paper (U := sample_db) plain_block = Some r
    /\ year r = lit "2015"
    /\ year_shaped (U := sample_db) (year r).
Proof.
  eexists. split; [reflexivity |]. split; [reflexivity |].
  destruct (year_is_leftmost_match (U := sample_db) plain_block eq_refl)
    as [[H _] | [H _]]; [discriminate H | exact H].
Defined.

(** ** The final ordering *)

Lemma str_eqb_eq a b : str_eqb a b = true <-> a = b.
Proof.
  unfold str_eqb. destruct (list_eq_dec N.eq_dec a b); split;
    intros; congruence.
Qed.

Lemma str_compare_refl a : str_compare a a = Eq.
Proof.
  induction a as [| x a IH]; simpl; [reflexivity |].
  rewrite N.compare_refl. exact IH.
Qed.

Lemma str_compare_eq a b : str_compare a b = Eq -> a = b.
Proof.
  revert b. induction a as [| x a IH]; intros [| y b]; simpl;
    try discriminate; [reflexivity |].
  destruct (N.compare_spec x y) as [Hxy | Hxy | Hxy]; try discriminate.
  intros Hrest. subst. f_equal. apply IH. exact Hrest.
Qed.

Lemma str_compare_antisym a b :
  str_compare b a = CompOpp (str_compare a b).
Proof.
  revert b. induction a as [| x a IH]; intros [| y b]; simpl;
    try reflexivity.
  rewrite (N.compare_antisym x y).
  destruct (N.compare x y); simpl; auto.
Qed.

Lemma str_compare_lt_trans a b c :
  str_compare a b = Lt -> str_compare b c = Lt -> str_compare a c = Lt.
Proof.
  revert b c. induction a as [| x a IH]; intros [| y b] [| z c]; simpl;
    try discriminate; try reflexivity.
  destruct (N.compare_spec x y) as [Hxy | Hxy | Hxy]; try discriminate.
  - subst y. destruct (N.compare x z); auto. apply IH.
  - intros _. destruct (N.compare_spec y z) as [Hyz | Hyz | Hyz];
      try discriminate; intros _.
    + subst z. apply N.compare_lt_iff in Hxy. rewrite Hxy. reflexivity.
    + assert (Hxz : (x < z)%N) by lia.
      apply N.compare_lt_iff in Hxz. rewrite Hxz. reflexivity.
Qed.

Lemma str_compare_le_trans a b c :
  str_compare a b <> Gt -> str_compare b c <> Gt -> str_compare a c <> Gt.
Proof.
  intros Hab Hbc.
  destruct (str_compare a b) eqn:Eab; [| | congruence].
  - apply str_compare_eq in Eab. subst. exact Hbc.
  - destruct (str_compare b c) eqn:Ebc; [| | congruence].
    + apply str_compare_eq in Ebc. subst. rewrite Eab. discriminate.
    + rewrite (str_compare_lt_trans _ _ _ Eab Ebc). discriminate.
Qed.

Lemma nothing_below_empty a : str_compare a [] <> Lt.
Proof. destruct a; discriminate. Qed.

Section YearsAsNumbers.
Context {U : UnicodeDB}.

Lemma int_from_shift acc s :
  int_from acc s
  = match int_from 0 s with
    | Some v => Some (acc * 10 ^ Z.of_nat (length s) + v)%Z
    | None => None
    end.
Proof.
  revert acc. induction s as [| c t IH]; intros acc.
  - cbn [int_from length]. f_equal. change (Z.of_nat 0) with 0%Z. lia.
  - cbn [int_from]. destruct (decimal_value c) as [d |]; [| reflexivity].
    rewrite (IH (10 * acc + Z.of_N d)%Z), (IH (10 * 0 + Z.of_N d)%Z).
    destruct (int_from 0 t) as [v |]; [| reflexivity].
    f_equal. cbn [length]. rewrite Nat2Z.inj_succ, Z.pow_succ_r by lia.
    ring.
Qed.

Lemma int_from_ascii s :
  forallb ascii_digit s = true ->
  exists v, int_from 0 s = Some v
            /\ (0 <= v < 10 ^ Z.of_nat (length s))%Z.
Proof.
  induction s as [| c t IH]; intros Hs.
  - exists 0%Z. simpl. split; [reflexivity | lia].
  - simpl in Hs. apply andb_true_iff in Hs. destruct Hs as [Hc Ht].
    destruct (IH Ht) as [v [Hv Hbound]].
    unfold ascii_digit in Hc. apply andb_true_iff in Hc.
    destruct Hc as [Hlo Hhi]. apply N.leb_le in Hlo, Hhi.
    cbn [int_from]. rewrite (@decimal_value_ascii _ c) by lia.
    rewrite int_from_shift, Hv.
    eexists. split; [reflexivity |].
    cbn [length]. rewrite Nat2Z.inj_succ, Z.pow_succ_r by lia.
    nia.
Qed.

(** On years written with the same number of ASCII digits, the order of
    the strings is the order of the numbers. *)
Lemma ascii_years_compare_as_numbers a b :
  length a = length b ->
  forallb ascii_digit a = true -> forallb ascii_digit b = true ->
  exists x y,
    int_from 0 a = Some x /\ int_from 0 b = Some y
    /\ str_compare a b = Z.compare x y.
Proof.
  revert b. induction a as [| c a IH]; intros [| d b] Hlen Ha Hb;
    try discriminate Hlen.
  - exists 0%Z, 0%Z. repeat split.
  - simpl in Hlen. injection Hlen as Hlen.
    simpl in Ha, Hb. apply andb_true_iff in Ha, Hb.
    destruct Ha as [Hc Ha]. destruct Hb as [Hd Hb].
    destruct (IH b Hlen Ha Hb) as [x [y [Hx [Hy Hcmp]]]].
    destruct (int_from_ascii a Ha) as [x' [Hx' Hbx]].
    destruct (int_from_ascii b Hb) as [y' [Hy' Hby]].
    assert (x' = x) by congruence. assert (y' = y) by congruence.
    subst x' y'.
    unfold ascii_digit in Hc, Hd. apply andb_true_iff in Hc, Hd.
    destruct Hc as [Hclo Hchi]. destruct Hd as [Hdlo Hdhi].
    apply N.leb_le in Hclo, Hchi, Hdlo, Hdhi.
    cbn [int_from].
    rewrite (@decimal_value_ascii _ c), (@decimal_value_ascii _ d) by lia.
    rewrite (int_from_shift _ a), (int_from_shift _ b), Hx, Hy.
    eexists. eexists. split; [reflexivity | split; [reflexivity |]].
    simpl str_compare. rewrite <- Hlen in *.
    destruct (N.compare_spec c d) as [Hcd | Hcd | Hcd].
    + subst d. rewrite Hcmp. symmetry.
      destruct (Z.compare_spec x y) as [Hxy | Hxy | Hxy].
      * apply Z.compare_eq_iff. lia.
      * apply Z.compare_lt_iff. lia.
      * apply Z.compare_gt_iff. lia.
    + symmetry. apply Z.compare_lt_iff. nia.
    + symmetry. apply Z.compare_gt_iff. nia.
Qed.

End YearsAsNumbers.

Lemma in_order_trans a b c : in_order a b -> in_order b c -> in_order a c.
Proof.
  unfold in_order.
  intros [Hab | [Yab Tab]] [Hbc | [Ybc Tbc]].
  - left. exact (str_compare_lt_trans _ _ _ Hbc Hab).
  - left. rewrite <- Ybc. exact Hab.
  - left. rewrite Yab. exact Hbc.
  - right. split; [congruence |].
    exact (str_compare_le_trans _ _ _ Tab Tbc).
Qed.

Lemma precedes_in_order a b : precedes a b = true <-> in_order a b.
Proof.
  unfold precedes, in_order. split.
  - destruct (str_compare (year (paper b)) (year (paper a))) eqn:Ey;
      [| left; reflexivity | discriminate].
    intros H. right. apply str_compare_eq in Ey.
    split; [congruence |].
    destruct (str_compare (title (paper a)) (title (paper b)));
      congruence.
  - intros [-> | [-> Ht]]; [reflexivity |].
    rewrite str_compare_refl.
    destruct (str_compare (title (paper a)) (title (paper b)));
      congruence.
Qed.

Lemma precedes_total a b : precedes a b = false -> in_order b a.
Proof.
  unfold precedes, in_order.
  rewrite (str_compare_antisym (year (paper b)) (year (paper a))).
  rewrite (str_compare_antisym (title (paper a)) (title (paper b))).
  destruct (str_compare (year (paper b)) (year (paper a))) eqn:Ey;
    simpl; [| discriminate | left; reflexivity].
  apply str_compare_eq in Ey.
  destruct (str_compare (title (paper a)) (title (paper b)));
    try discriminate.
  intros _. right. split; [exact Ey | discriminate].
Qed.

Lemma insert_row_permutation x l : Permutation (x :: l) (insert_row x l).
Proof.
  induction l as [| y rest IH]; simpl.
  - apply Permutation_refl.
  - destruct (precedes x y).
    + apply Permutation_refl.
    + eapply perm_trans; [apply perm_swap |].
      apply perm_skip. exact IH.
Qed.

Lemma insert_row_head y x rest :
  in_order y x -> HdRel in_order y rest ->
  HdRel in_order y (insert_row x rest).
Proof.
  intros Hyx Hhd. destruct rest as [| z rest]; simpl.
  - constructor. exact Hyx.
  - destruct (precedes x z); constructor.
    + exact Hyx.
    + inversion Hhd; assumption.
Qed.

Lemma insert_row_sorted x l :
  Sorted in_order l -> Sorted in_order (insert_row x l).
Proof.
  induction l as [| y rest IH]; intros Hs; simpl.
  - repeat constructor.
  - inversion Hs as [| ? ? Hrest Hhd]; subst.
    destruct (precedes x y) eqn:Hp.
    + constructor; [exact Hs |].
      constructor. apply precedes_in_order. exact Hp.
    + constructor; [apply IH; exact Hrest |].
      apply insert_row_head; [apply precedes_total; exact Hp | exact Hhd].
Qed.

(** A row passes the rows it precedes strictly, so it stays behind the
    rows with its own keys that were ahead of it. *)
Lemma insert_row_stable y t x l :
  filter (has_keys y t) (insert_row x l) = filter (has_keys y t) (x :: l).
Proof.
  induction l as [| z rest IH]; [reflexivity |].
  simpl insert_row. destruct (precedes x z) eqn:Hp; [reflexivity |].
  simpl filter in *. rewrite IH.
  destruct (has_keys y t x) eqn:Hx; [| reflexivity].
  destruct (has_keys y t z) eqn:Hz; [| reflexivity].
  exfalso. unfold has_keys in Hx, Hz.
  apply andb_true_iff in Hx. apply andb_true_iff in Hz.
  destruct Hx as [Hxy Hxt]. destruct Hz as [Hzy Hzt].
  apply str_eqb_eq in Hxy, Hxt, Hzy, Hzt.
  assert (Hin : in_order x z).
  { right. split; [congruence |].
    rewrite Hxt, Hzt, str_compare_refl. discriminate. }
  apply precedes_in_order in Hin. congruence.
Qed.

Lemma strongly_sorted_suffix (pre : list CitationRecord) rest :
  StronglySorted in_order (pre ++ rest) -> StronglySorted in_order rest.
Proof.
  induction pre as [| a pre IH]; simpl; intros H; [exact H |].
  apply IH. inversion H; assumption.
Qed.

Lemma sort_values_permutation rows : Permutation rows (sort_values rows).
Proof.
  induction rows as [| x rest IH]; simpl.
  - constructor.
  - eapply perm_trans; [apply perm_skip; exact IH |].
    apply insert_row_permutation.
Qed.

Lemma sort_values_sorted rows : StronglySorted in_order (sort_values rows).
Proof.
  apply Sorted_StronglySorted.
  - intros a b c. apply in_order_trans.
  - induction rows as [| x rest IH]; simpl.
    + constructor.
    + apply insert_row_sorted. exact IH.
Qed.

Lemma sort_values_stable y t rows :
  filter (has_keys y t) (sort_values rows) = filter (has_keys y t) rows.
Proof.
  induction rows as [| x rest IH]; [reflexivity |].
  simpl sort_values. rewrite insert_row_stable.
  simpl. rewrite IH. reflexivity.
Qed.

(** What [get_all_citations] returns is the accumulated records, sorted. *)
Lemma get_all_citations_sorted {U : UnicodeDB} min_year fetched :
  Permutation (accumulate min_year fetched)
    (get_all_citations min_year fetched)
  /\ StronglySorted in_order (get_all_citations min_year fetched).
Proof.
  unfold get_all_citations.
  split; [apply sort_values_permutation | apply sort_values_sorted].
Qed.

(** C5: the final ordering is a permutation of the accumulated records in
    which every record stands before the later ones by year descending (as
    strings) and then title ascending; records with equal keys keep their
    relative order; once a record without a year is reached only records
    without a year follow; and the records (2019, "B"), (2020, "A"),
    (no year, "C") come out as A, B, C. *)
Theorem sort_is_stable_by_year_desc_title_asc :
  forall rows : list CitationRecord,
    Permutation rows (sort_values rows)
    /\ StronglySorted in_order (sort_values rows)
    /\ (forall y t,
          filter (has_keys y t) (sort_values rows)
          = filter (has_keys y t) rows)
    /\ (forall pre c post,
          sort_values rows = pre ++ c :: post ->
          year (paper c) = [] ->
          Forall (fun d => year (paper d) = []) post)
    /\ sort_values three_records
       = [citation (lit "2020") (lit "A"); citation (lit "2019") (lit "B");
          citation [] (lit "C")].
Proof.
  intros rows.
  split; [apply sort_values_permutation |].
  split; [apply sort_values_sorted |].
  split; [intros y t; apply sort_values_stable |].
  split; [| reflexivity].
  intros pre c post Heq Hc.
  pose proof (sort_values_sorted rows) as Hsorted.
  rewrite Heq in Hsorted.
  apply strongly_sorted_suffix in Hsorted.
  apply StronglySorted_inv in Hsorted. destruct Hsorted as [_ Hall].
  eapply Forall_impl; [| exact Hall].
  intros d [Hlt | [Hy _]].
  - rewrite Hc in Hlt. exfalso. exact (nothing_below_empty _ Hlt).
  - congruence.
Qed.

(** C5 at the records (no year, "C"), (no year, "B"), (2020, "A"): after
    the first record without a year only such records follow. *)
Lemma sort_is_stable_by_year_desc_title_asc_witness :
  Forall (fun d => year (paper d) = []) [citation [] (lit "C")].
Proof.
  destruct (sort_is_stable_by_year_desc_title_asc
              [citation [] (lit "C"); citation [] (lit "B");
               citation (lit "2020") (lit "A")])
    as [_ [_ [_ [H _]]]].
  apply (H [citation (lit "2020") (lit "A")] (citation [] (lit "B"))).
  - reflexivity.
  - reflexivity.
Defined.

(** ** Input in ASCII

    When the text scraped holds ASCII characters only, the digits are the
    ten ASCII digits, every digit-only string reads as an integer, and the
    properties hold as the specification words them. *)

Section Ascii.
Context {U : UnicodeDB}.

Lemma ascii_isdigit_reads s :
  Forall (fun c => (c < 128)%N) s -> isdigit s = true ->
  forallb ascii_digit s = true /\ exists n, int s = Some n.
Proof.
  intros Hascii Hd. unfold isdigit in Hd.
  apply andb_true_iff in Hd. destruct Hd as [Hne Hd].
  assert (Hall : forallb ascii_digit s = true).
  { apply forallb_forall. intros c Hin.
    rewrite Forall_forall in Hascii. rewrite forallb_forall in Hd.
    destruct (@is_digit_ascii _ c (Hascii c Hin) (Hd c Hin)) as [Hlo Hhi].
    unfold ascii_digit. apply andb_true_iff.
    split; apply N.leb_le; assumption. }
  split; [exact Hall |].
  destruct (int_from_ascii s Hall) as [v [Hv _]].
  exists v. destruct s; [discriminate Hne | exact Hv].
Qed.

Lemma ascii_digit_decimal c : ascii_digit c = true -> is_decimal c = true.
Proof.
  unfold ascii_digit, is_decimal. intros H.
  apply andb_true_iff in H. destruct H as [Hlo Hhi].
  apply N.leb_le in Hlo, Hhi.
  rewrite (@decimal_value_ascii _ c) by lia. reflexivity.
Qed.

Lemma ascii_year_shaped y : ascii_year y -> year_shaped y.
Proof.
  intros [Hlen [Hall Hpre]].
  destruct y as [| a [| b [| c [| d [| e y]]]]]; try discriminate Hlen.
  simpl in Hall.
  repeat (apply andb_true_iff in Hall; destruct Hall as [? Hall]).
  exists c, d. split; [| split; apply ascii_digit_decimal; assumption].
  change (lit "19") with [49; 57]%N in Hpre.
  change (lit "20") with [50; 48]%N in Hpre.
  destruct Hpre as [Hpre | Hpre]; cbn [is_prefix] in Hpre;
    apply andb_true_iff in Hpre; destruct Hpre as [Ha Hpre];
    apply andb_true_iff in Hpre; destruct Hpre as [Hb _];
    apply N.eqb_eq in Ha, Hb; subst a b; auto.
Qed.

Lemma year_shaped_ascii y :
  Forall (fun c => (c < 128)%N) y -> year_shaped y -> ascii_year y.
Proof.
  intros Hascii Hy.
  destruct (year_shaped_reads Hy) as [Hd _].
  destruct (ascii_isdigit_reads Hascii Hd) as [Hall _].
  split; [apply (year_shaped_length Hy) | split; [exact Hall |]].
  destruct Hy as [c [d [[-> | ->] _]]]; [right | left]; reflexivity.
Qed.

(** C6 as stated, for a byline in ASCII. *)
Lemma ascii_byline_year_as_specified text :
  Forall (fun c => (c < 128)%N) text ->
  year_as_specified text
    (match search_year text with Some y => y | None => [] end).
Proof.
  intros Hascii. pose proof (search_year_leftmost text) as H.
  destruct (search_year text) as [y |]; [right | left; reflexivity].
  destruct H as [Hy [pre [post [Heq Hmin]]]].
  split.
  - apply year_shaped_ascii; [| exact Hy].
    rewrite Heq in Hascii.
    apply Forall_app in Hascii. destruct Hascii as [_ Hascii].
    apply Forall_app in Hascii. tauto.
  - exists pre, post. split; [exact Heq |].
    intros pre' y' post' Heq' Hy'.
    apply (Hmin pre' y' post' Heq'). apply ascii_year_shaped. exact Hy'.
Qed.

(** C4 as stated, for link labels in ASCII. *)
Lemma ascii_labels_page_count_as_specified p :
  (forall labels, footer p = Some labels ->
     Forall (Forall (fun c => (c < 128)%N)) labels) ->
  page_count_as_specified p (get_total_citation_pages p).
Proof.
  intros Hascii.
  split; [| split].
  - unfold get_total_citation_pages. intros ->. reflexivity.
  - unfold get_total_citation_pages. intros Hres ->.
    destruct (results p) as [| blk blks]; [contradiction | reflexivity].
  - intros labels Hres Hfooter [l [v [Hin [Hd _]]]].
    apply page_count_max; [exact Hres | exact Hfooter | | exists l; auto].
    intros l' Hin' Hd'.
    specialize (Hascii labels Hfooter). rewrite Forall_forall in Hascii.
    destruct (ascii_isdigit_reads (Hascii l' Hin') Hd') as [_ [n Hn]].
    congruence.
Qed.

(** The year filter on years in ASCII: no digit-only year fails to read. *)
Lemma ascii_years_read (citations : list CitationRecord) :
  Forall (fun c => Forall (fun ch => (ch < 128)%N) (year (paper c)))
    citations ->
  forall c, In c citations ->
    isdigit (year (paper c)) = true -> int (year (paper c)) <> None.
Proof.
  intros Hascii c Hin Hd. rewrite Forall_forall in Hascii.
  destruct (ascii_isdigit_reads (Hascii c Hin) Hd) as [_ [n Hn]].
  congruence.
Qed.

End Ascii.

End ScholarFacts.

(** * Properties of scrape_affliations.py *)

Module AffiliationsFacts.
Import PyStr Affiliations.

(** ** Logs *)

Lemma appended_app l1 l2 : appended (l1 ++ l2) = appended l1 ++ appended l2.
Proof. unfold appended. apply flat_map_app. Qed.

Lemma queries_app l1 l2 : queries (l1 ++ l2) = queries l1 ++ queries l2.
Proof. unfold queries. apply flat_map_app. Qed.

Lemma on_disk_app before l1 l2 :
  on_disk before (l1 ++ l2) = on_disk (on_disk before l1) l2.
Proof. unfold on_disk. apply fold_left_app. Qed.

Lemma saves_ok_app s l1 l2 :
  saves_ok s (l1 ++ l2) <-> saves_ok s l1 /\ saves_ok (s ++ appended l1) l2.
Proof.
  revert s. induction l1 as [| e l1 IH]; intros s; simpl.
  - rewrite app_nil_r. tauto.
  - destruct e as [src key | r | rows]; simpl.
    + apply IH.
    + rewrite IH, <- app_assoc. reflexivity.
    + rewrite IH. tauto.
Qed.

Lemma saves_ok_rows s log :
  saves_ok s log ->
  forall done rows rest,
    log = done ++ Saved rows :: rest -> rows = s ++ appended done.
Proof.
  intros Hok done rows rest ->.
  apply saves_ok_app in Hok. destruct Hok as [_ [Hrows _]]. exact Hrows.
Qed.

Lemma on_disk_cons before e log :
  on_disk before (e :: log)
  = on_disk (match e with Saved r => r | _ => before end) log.
Proof. reflexivity. Qed.

(** What is on disk never shrinks: it is extended by each save. *)
Lemma on_disk_extends s log before :
  saves_ok s log -> (exists e0, s = before ++ e0) ->
  exists ext, on_disk before log = before ++ ext.
Proof.
  revert s before. induction log as [| e log IH]; intros s before Hok [e0 Hs].
  - exists []. rewrite app_nil_r. reflexivity.
  - rewrite on_disk_cons. destruct e as [src key | r | rows]; simpl in Hok.
    + apply (IH s); [exact Hok | exists e0; exact Hs].
    + apply (IH (s ++ [r])); [exact Hok |].
      exists (e0 ++ [r]). rewrite Hs, <- app_assoc. reflexivity.
    + destruct Hok as [-> Hok].
      destruct (IH s s Hok) as [ext Hext].
      { exists []. rewrite app_nil_r. reflexivity. }
      exists (e0 ++ ext). rewrite Hext, Hs, <- app_assoc. reflexivity.
Qed.

(** What is on disk is an initial part of [results]. *)
Lemma on_disk_behind s log before :
  saves_ok s log -> (exists e0, s = before ++ e0) ->
  exists ext, s ++ appended log = on_disk before log ++ ext.
Proof.
  revert s before. induction log as [| e log IH]; intros s before Hok [e0 Hs].
  - exists e0. simpl. rewrite app_nil_r. exact Hs.
  - rewrite on_disk_cons. destruct e as [src key | r | rows]; simpl in Hok.
    + apply (IH s); [exact Hok | exists e0; exact Hs].
    + change (appended (Appended r :: log)) with ([r] ++ appended log).
      rewrite app_assoc.
      apply (IH (s ++ [r])); [exact Hok |].
      exists (e0 ++ [r]). rewrite Hs, <- app_assoc. reflexivity.
    + destruct Hok as [-> Hok].
      apply (IH s); [exact Hok |].
      exists []. rewrite app_nil_r. reflexivity.
Qed.

(** ** Computations track [results] *)

Lemma tracks_ret {A} (a : A) : tracks (ret a).
Proof. intros s. simpl. rewrite app_nil_r. auto. Qed.

Lemma tracks_raise {A} : tracks (@raise A).
Proof. intros s. simpl. rewrite app_nil_r. auto. Qed.

Lemma tracks_query src key : tracks (emit (Query src key)).
Proof. intros s. simpl. rewrite app_nil_r. auto. Qed.

Lemma tracks_append r : tracks (append r).
Proof. intros s. simpl. auto. Qed.

Lemma tracks_save : tracks save.
Proof. intros s. simpl. rewrite app_nil_r. auto. Qed.

Lemma tracks_bind {A B} (m : M A) (f : A -> M B) :
  tracks m -> (forall a, tracks (f a)) -> tracks (bind m f).
Proof.
  intros Hm Hf s. unfold bind. specialize (Hm s).
  destruct (m s) as [[s1 l1] [a |]]; [| exact Hm].
  destruct Hm as [-> Hok1]. specialize (Hf a (s ++ appended l1)).
  destruct (f a (s ++ appended l1)) as [[s2 l2] r].
  destruct Hf as [-> Hok2]. split.
  - rewrite appended_app, app_assoc. reflexivity.
  - apply saves_ok_app. auto.
Qed.

Lemma tracks_catch {A} (m h : M A) : tracks m -> tracks h -> tracks (catch m h).
Proof.
  intros Hm Hh s. unfold catch. specialize (Hm s).
  destruct (m s) as [[s1 l1] [a |]]; [exact Hm |].
  destruct Hm as [-> Hok1]. specialize (Hh (s ++ appended l1)).
  destruct (h (s ++ appended l1)) as [[s2 l2] r].
  destruct Hh as [-> Hok2]. split.
  - rewrite appended_app, app_assoc. reflexivity.
  - apply saves_ok_app. auto.
Qed.

Lemma tracks_for_each {A} (l : list A) (body : A -> M unit) :
  (forall x, tracks (body x)) -> tracks (for_each l body).
Proof.
  intros Hbody. induction l as [| x rest IH]; simpl.
  - apply tracks_ret.
  - apply tracks_bind; [apply Hbody | intros _; exact IH].
Qed.

(** ** Computations do not read [results] *)

Lemma shift_shift s d e : shift s (shift d e) = shift (s ++ d) e.
Proof. destruct e; simpl; [reflexivity | reflexivity |].
  rewrite app_assoc. reflexivity. Qed.

Lemma framed_ret {A} (a : A) : framed (ret a).
Proof. intros s. simpl. rewrite app_nil_r. reflexivity. Qed.

Lemma framed_raise {A} : framed (@raise A).
Proof. intros s. simpl. rewrite app_nil_r. reflexivity. Qed.

Lemma framed_query src key : framed (emit (Query src key)).
Proof. intros s. simpl. rewrite app_nil_r. reflexivity. Qed.

Lemma framed_append r : framed (append r).
Proof. intros s. reflexivity. Qed.

Lemma framed_save : framed save.
Proof. intros s. simpl. rewrite app_nil_r. reflexivity. Qed.

Lemma framed_bind {A B} (m : M A) (f : A -> M B) :
  framed m -> (forall a, framed (f a)) -> framed (bind m f).
Proof.
  intros Hm Hf s. unfold bind. rewrite (Hm s).
  destruct (m []) as [[d1 l1] [a |]]; [| reflexivity].
  rewrite (Hf a (s ++ d1)), (Hf a d1).
  destruct (f a []) as [[d2 l2] r].
  rewrite map_app, map_map, app_assoc. f_equal. f_equal. f_equal.
  apply map_ext. intros e. rewrite shift_shift. reflexivity.
Qed.

Lemma framed_catch {A} (m h : M A) : framed m -> framed h -> framed (catch m h).
Proof.
  intros Hm Hh s. unfold catch. rewrite (Hm s).
  destruct (m []) as [[d1 l1] [a |]]; [reflexivity |].
  rewrite (Hh (s ++ d1)), (Hh d1).
  destruct (h []) as [[d2 l2] r].
  rewrite map_app, map_map, app_assoc. f_equal. f_equal. f_equal.
  apply map_ext. intros e. rewrite shift_shift. reflexivity.
Qed.

Lemma framed_for_each {A} (l : list A) (body : A -> M unit) :
  (forall x, framed (body x)) -> framed (for_each l body).
Proof.
  intros Hbody. induction l as [| x rest IH]; simpl.
  - apply framed_ret.
  - apply framed_bind; [apply Hbody | intros _; exact IH].
Qed.

Create HintDb pass discriminated.
#[local] Hint Resolve tracks_ret tracks_raise tracks_query tracks_append
  tracks_save framed_ret framed_raise framed_query framed_append
  framed_save : pass.

Ltac pass_step :=
  first
    [ apply tracks_bind | apply framed_bind
    | apply tracks_catch | apply framed_catch
    | apply tracks_for_each | apply framed_for_each
    | match goal with
      | |- context [match ?x with _ => _ end] => destruct x
      | |- context [if ?b then _ else _] => destruct b
      end
    | intro ];
  auto with pass.

Section Pass.
Context {U : UnicodeDB}.
Variable env : services.

Lemma process_paper_tracks title : tracks (process_paper env title).
Proof.
  unfold process_paper, process_author, resolve_affiliations,
    search_crossref, search_openalex, search_semantic_scholar.
  repeat pass_step.
Qed.

Lemma process_paper_framed title : framed (process_paper env title).
Proof.
  unfold process_paper, process_author, resolve_affiliations,
    search_crossref, search_openalex, search_semantic_scholar.
  repeat pass_step.
Qed.

Lemma pass_tracks titles :
  tracks (for_each titles
            (fun title => catch (process_paper env title) (ret tt))).
Proof.
  apply tracks_for_each. intros title.
  apply tracks_catch; [apply process_paper_tracks | apply tracks_ret].
Qed.

Lemma pass_framed titles :
  framed (for_each titles
            (fun title => catch (process_paper env title) (ret tt))).
Proof.
  apply framed_for_each. intros title.
  apply framed_catch; [apply process_paper_framed | apply framed_ret].
Qed.

Lemma occurrences_app p rows1 rows2 :
  occurrences p (rows1 ++ rows2) = occurrences p rows1 + occurrences p rows2.
Proof. unfold occurrences. rewrite filter_app, length_app. reflexivity. Qed.

(** C3, as amended: a pass from index 0 over a file from which the rows
    [prior] are loaded ends with [prior] followed by the rows a pass
    without a file produces. Every (paper, author) pair is in the result
    as often as in [prior] plus as often as in the rows of a pass without
    a file; when [prior] is the rows of such a pass, every pair is there
    twice as often as in one pass. *)
Theorem rerun_appends_after_loaded :
  forall (titles : list pystr) (prior : list AffiliationRecord),
    let fresh := fst (process_papers env titles 0 None) in
    let rerun := fst (process_papers env titles 0 (Some prior)) in
    rerun = prior ++ fresh
    /\ (forall p, occurrences p rerun
                  = occurrences p prior + occurrences p fresh)
    /\ (prior = fresh ->
        forall p, occurrences p rerun = 2 * occurrences p fresh).
Proof.
  intros titles prior fresh rerun.
  assert (Heq : rerun = prior ++ fresh).
  { subst fresh rerun. unfold process_papers. simpl default.
    rewrite (pass_framed (skipn 0 titles) prior).
    destruct (for_each (skipn 0 titles)
                (fun title => catch (process_paper env title) (ret tt)) [])
      as [[d l] r].
    reflexivity. }
  split; [exact Heq |]. split.
  - intros p. rewrite Heq. apply occurrences_app.
  - intros Hprior p. rewrite Heq, occurrences_app, Hprior. lia.
Qed.

(** A paper processed without error ends with a save of all of
    [results]. *)
Lemma process_paper_saves title s s' log :
  process_paper env title s = (s', log, Ok tt) ->
  exists before, log = before ++ [Saved s'].
Proof.
  unfold process_paper, bind, save.
  destruct (search_crossref env title s) as [[s1 l1] [paper_data |]];
    [| discriminate].
  destruct (match paper_data with
            | Some item =>
                for_each (default [] (author item))
                  (process_author env title (DOI item))
            | None => ret tt
            end s1) as [[s2 l2] [u |]]; [| discriminate].
  intros H. injection H as <- <-.
  exists (l1 ++ l2). rewrite <- app_assoc. reflexivity.
Qed.

(** C8, as amended: a paper processed without error ends with the file
    rewritten with all of the results; the rows written at any save are the
    rows loaded at the start followed by all the rows appended so far, so
    their number is the number loaded plus the number of (paper, author)
    pairs processed so far; the file at a later time extends the file at an
    earlier time; and the pass ends with the rows loaded followed by all
    the rows appended. *)
Theorem checkpoint_rows_at_each_save :
  forall (titles : list pystr) (start_index : nat)
         (existing : option (list AffiliationRecord)),
    let loaded := default [] existing in
    let final := fst (process_papers env titles start_index existing) in
    let log := snd (process_papers env titles start_index existing) in
    (forall done rows rest,
       log = done ++ Saved rows :: rest ->
       rows = loaded ++ appended done
       /\ length rows = length loaded + length (appended done))
    /\ (forall d1 d2 rest,
          log = d1 ++ d2 ++ rest ->
          exists ext, on_disk loaded (d1 ++ d2) = on_disk loaded d1 ++ ext)
    /\ final = loaded ++ appended log
    /\ (forall title s s' effects,
          process_paper env title s = (s', effects, Ok tt) ->
          on_disk s effects = s').
Proof.
  intros titles start_index existing loaded final log.
  assert (Htr : final = loaded ++ appended log /\ saves_ok loaded log).
  { subst final log. unfold process_papers. fold loaded.
    pose proof (pass_tracks (skipn start_index titles) loaded) as H.
    destruct (for_each (skipn start_index titles)
                (fun title => catch (process_paper env title) (ret tt))
                loaded) as [[s' l] r].
    exact H. }
  destruct Htr as [Hfinal Hok].
  split; [| split; [| split; [exact Hfinal |]]].
  - intros done rows rest Hlog.
    pose proof (@saves_ok_rows _ _ Hok _ _ _ Hlog) as ->.
    split; [reflexivity | apply length_app].
  - intros d1 d2 rest Hlog. rewrite Hlog in Hok.
    apply saves_ok_app in Hok. destruct Hok as [Hok1 Hok2].
    apply saves_ok_app in Hok2. destruct Hok2 as [Hok2 _].
    rewrite on_disk_app.
    eapply on_disk_extends; [exact Hok2 |].
    apply on_disk_behind; [exact Hok1 |].
    exists []. rewrite app_nil_r. reflexivity.
  - intros title s s' effects Hrun.
    destruct (process_paper_saves _ _ Hrun) as [before ->].
    rewrite on_disk_app. reflexivity.
Qed.

End Pass.

(** C3, as stated, fails: with one title, for which Crossref lists one
    author, a pass without a file ends with one row, and the pass run
    again from index 0 over a file from which that row is loaded ends with
    that row twice. *)
Lemma rerun_duplicates_every_pair :
  fst (process_papers (U := sample_db) one_author [lit "Notes"] 0
         (Some [ada_row]))
  = [ada_row; ada_row]
  /\ ~ rerun_adds_no_duplicates (U := sample_db) one_author [lit "Notes"].
Proof.
  split; [reflexivity |].
  intros H.
  specialize (H [ada_row] eq_refl (lit "Notes", lit "Ada Lovelace")).
  vm_compute in H. discriminate H.
Qed.

(** C3, as amended, on a list that names the same title twice: the file
    holds the two rows of a complete pass, and the pass run again from
    index 0 ends with four rows for the pair. *)
Lemma rerun_appends_after_loaded_witness :
  occurrences (lit "Notes", lit "Ada Lovelace")
    (fst (process_papers (U := sample_db) one_author
            [lit "Notes"; lit "Notes"] 0 (Some [ada_row; ada_row])))
  = 2 * occurrences (lit "Notes", lit "Ada Lovelace")
          (fst (process_papers (U := sample_db) one_author
                  [lit "Notes"; lit "Notes"] 0 None)).
Proof.
  destruct (rerun_appends_after_loaded (U := sample_db) one_author
              [lit "Notes"; lit "Notes"] [ada_row; ada_row])
    as [_ [_ H]].
  apply H. reflexivity.
Defined.

(** C8, as stated, fails: with one title whose second author makes the
    OpenAlex lookup raise, the first author's row has been appended and the
    file has not been written when the pass ends. *)
Lemma no_checkpoint_after_failed_paper :
  process_papers (U := sample_db) second_author_fails [lit "Notes"] 0 None
  = ([ada_row],
     [Query Crossref (lit "Notes"); Appended ada_row;
      Query OpenAlex (lit "10.1000/notes")])
  /\ ~ checkpoint_as_specified
         (snd (process_papers (U := sample_db) second_author_fails
                 [lit "Notes"] 0 None)).
Proof.
  split; [reflexivity |].
  intros [_ H].
  specialize (H _ [] (eq_sym (app_nil_r _))).
  vm_compute in H. discriminate H.
Qed.

(** The amended C8 on a pass over one title from a file with one row: the
    rows saved are the row loaded and the row appended. *)
Lemma checkpoint_rows_at_each_save_witness :
  [ada_row; ada_row] = [ada_row] ++ appended [Query Crossref (lit "Notes");
                                             Appended ada_row]
  /\ length [ada_row; ada_row]
     = length [ada_row]
       + length (appended [Query Crossref (lit "Notes"); Appended ada_row]).
Proof.
  destruct (checkpoint_rows_at_each_save (U := sample_db) one_author
              [lit "Notes"] 0 (Some [ada_row])) as [H _].
  apply (H [Query Crossref (lit "Notes"); Appended ada_row]
           [ada_row; ada_row] []).
  reflexivity.
Defined.

(** ** The fallback chain *)

Section Fallback.
Context {U : UnicodeDB}.
Variable env : services.

(** With a DOI, a lookup makes its one request, leaves [results] alone and
    returns or raises. *)
Lemma search_openalex_shape doi s :
  present doi = true ->
  search_openalex env doi s
  = (s, [Query OpenAlex (default [] doi)], snd (search_openalex env doi s)).
Proof.
  intros Hdoi. unfold search_openalex. rewrite Hdoi. simpl.
  unfold bind, emit.
  destruct (openalex env (default [] doi)) as [| data |]; reflexivity.
Qed.

Lemma search_semantic_scholar_shape doi s :
  present doi = true ->
  search_semantic_scholar env doi s
  = (s, [Query SemanticScholar (default [] doi)],
     snd (search_semantic_scholar env doi s)).
Proof.
  intros Hdoi. unfold search_semantic_scholar. rewrite Hdoi. simpl.
  unfold bind, emit.
  destruct (semantic_scholar env (default [] doi)) as [| data |];
    reflexivity.
Qed.

(** A lookup that returns a list returns a non-empty one. *)
Lemma search_openalex_some doi s found :
  snd (search_openalex env doi s) = Ok (Some found) -> is_empty found = false.
Proof.
  unfold search_openalex. destruct (negb (present doi)); [discriminate |].
  unfold bind, emit.
  destruct (openalex env (default [] doi)) as [| data |]; simpl;
    try discriminate.
  destruct (is_empty (flat_map (authorship_affiliations) (default [] data)))
    eqn:He; simpl; [discriminate |].
  intros H. injection H as <-. exact He.
Qed.

Lemma search_semantic_scholar_some doi s found :
  snd (search_semantic_scholar env doi s) = Ok (Some found) ->
  is_empty found = false.
Proof.
  unfold search_semantic_scholar.
  destruct (negb (present doi)); [discriminate |].
  unfold bind, emit.
  destruct (semantic_scholar env (default [] doi)) as [| data |]; simpl;
    try discriminate.
  destruct (is_empty (flat_map s2_author_affiliations (default [] data)))
    eqn:He; simpl; [discriminate |].
  intros H. injection H as <-. exact He.
Qed.

(** The row of an author, from the affiliations found. *)
Lemma process_author_embedded title doi a s :
  is_empty (embedded_affiliations a) = false ->
  process_author env title doi a s
  = (s ++ [result_row title doi a (embedded_affiliations a)],
     [Appended (result_row title doi a (embedded_affiliations a))], Ok tt).
Proof.
  intros He. unfold process_author, resolve_affiliations, bind.
  rewrite He. simpl. rewrite He. reflexivity.
Qed.

Lemma is_empty_nil {A} (l : list A) : is_empty l = true <-> l = [].
Proof. destruct l; simpl; split; congruence. Qed.

(** The run for an author without embedded affiliation, of a paper with a
    DOI. *)
Lemma process_author_fallback title doi a s :
  embedded_affiliations a = [] -> present doi = true ->
  process_author env title doi a s
  = match snd (search_openalex env doi s) with
    | Raised => (s, [Query OpenAlex (default [] doi)], Raised)
    | Ok found =>
        if is_empty (matching (full_name a) (default [] found)) then
          match snd (search_semantic_scholar env doi s) with
          | Raised =>
              (s, [Query OpenAlex (default [] doi);
                   Query SemanticScholar (default [] doi)], Raised)
          | Ok found2 =>
              let r := result_row title doi a
                         (matching (full_name a) (default [] found2)) in
              (s ++ [r],
               [Query OpenAlex (default [] doi);
                Query SemanticScholar (default [] doi); Appended r], Ok tt)
          end
        else
          let r := result_row title doi a
                     (matching (full_name a) (default [] found)) in
          (s ++ [r], [Query OpenAlex (default [] doi); Appended r], Ok tt)
    end.
Proof.
  intros He Hdoi. unfold process_author, resolve_affiliations, bind.
  rewrite He, Hdoi. simpl.
  rewrite (@search_openalex_shape doi s Hdoi).
  destruct (snd (search_openalex env doi s)) as [found |]; simpl;
    [| reflexivity].
  destruct (is_empty (matching (full_name a) (default [] found))) eqn:Hm;
    simpl; [| reflexivity].
  apply is_empty_nil in Hm. rewrite Hm.
  rewrite (@search_semantic_scholar_shape doi s Hdoi).
  destruct (snd (search_semantic_scholar env doi s)) as [found2 |]; simpl;
    reflexivity.
Qed.

(** C7: for an author the primary source returns with an embedded
    affiliation, no other source is queried; for an author without one, of
    a paper with a DOI, the secondary source is queried first, and the
    tertiary source is queried after it exactly when the secondary lookup
    returned without a matching affiliation. *)
Theorem fallback_order :
  forall (title : pystr) (doi : option pystr) (a : crossref_author)
         (s : list AffiliationRecord),
    let log := snd (fst (process_author env title doi a s)) in
    (embedded_affiliations a <> [] -> queries log = [])
    /\ (embedded_affiliations a = [] -> present doi = true ->
        (queries log = [OpenAlex]
         \/ queries log = [OpenAlex; SemanticScholar])
        /\ (In SemanticScholar (queries log) <->
            exists found,
              snd (search_openalex env doi s) = Ok found
              /\ matching (full_name a) (default [] found) = [])).
Proof.
  intros title doi a s log. split.
  - intros Hne. subst log. rewrite process_author_embedded; [reflexivity |].
    destruct (embedded_affiliations a); [contradiction | reflexivity].
  - intros He Hdoi. subst log.
    rewrite (@process_author_fallback title doi a s He Hdoi).
    destruct (snd (search_openalex env doi s)) as [found |].
    + destruct (is_empty (matching (full_name a) (default [] found)))
        eqn:Hm.
      * apply is_empty_nil in Hm.
        destruct (snd (search_semantic_scholar env doi s)) as [found2 |];
          simpl.
        -- split; [right; reflexivity |].
           split; [intros _; exists found; auto | intros _; simpl; auto].
        -- split; [right; reflexivity |].
           split; [intros _; exists found; auto | intros _; simpl; auto].
      * split; [left; reflexivity |].
        split.
        -- simpl. intros [H | []]. discriminate H.
        -- intros [found' [Hf Hnone]]. injection Hf as <-.
           rewrite Hnone in Hm. discriminate Hm.
    + split; [left; reflexivity |].
      split.
      * simpl. intros [H | []]. discriminate H.
      * intros [found' [Hf _]]. discriminate Hf.
Qed.

Lemma str_in_empty hay : str_in [] hay = true.
Proof. destruct hay; reflexivity. Qed.

Lemma matching_empty_name found : matching [] found = map snd found.
Proof.
  unfold matching. f_equal.
  induction found as [| p rest IH]; simpl; [reflexivity |].
  unfold name_matches at 1. rewrite lower_empty, str_in_empty. simpl.
  f_equal. exact IH.
Qed.

Lemma map_snd_not_empty {A B} (l : list (A * B)) :
  is_empty l = false -> is_empty (map snd l) = false.
Proof. destruct l; simpl; congruence. Qed.

(** C10: an author without given and family name gets the empty name; when
    the other sources are consulted for that author (no embedded
    affiliation, a DOI), every affiliation the secondary source returns is
    put in the author's row, and when the secondary source returns none,
    every affiliation the tertiary source returns. *)
Theorem nameless_author_collects_every_affiliation :
  forall (title : pystr) (doi : option pystr) (a : crossref_author)
         (s : list AffiliationRecord),
    given a = None -> family a = None ->
    full_name a = []
    /\ (embedded_affiliations a = [] -> present doi = true ->
        forall found,
          (snd (search_openalex env doi s) = Ok (Some found) ->
           process_author env title doi a s
           = (s ++ [{| paper_title := title; author_name := [];
                       affiliations := join (lit "; ") (map snd found);
                       doi := default [] doi |}],
              [Query OpenAlex (default [] doi);
               Appended {| paper_title := title; author_name := [];
                           affiliations := join (lit "; ") (map snd found);
                           doi := default [] doi |}],
              Ok tt))
          /\ (snd (search_openalex env doi s) = Ok None ->
              snd (search_semantic_scholar env doi s) = Ok (Some found) ->
              process_author env title doi a s
              = (s ++ [{| paper_title := title; author_name := [];
                          affiliations := join (lit "; ") (map snd found);
                          doi := default [] doi |}],
                 [Query OpenAlex (default [] doi);
                  Query SemanticScholar (default [] doi);
                  Appended {| paper_title := title; author_name := [];
                              affiliations :=
                                join (lit "; ") (map snd found);
                              doi := default [] doi |}],
                 Ok tt))).
Proof.
  intros title doi a s Hg Hf.
  assert (Hname : full_name a = []).
  { unfold full_name. rewrite Hg, Hf. reflexivity. }
  split; [exact Hname |].
  intros He Hdoi found. split.
  - intros Hoa.
    rewrite (@process_author_fallback title doi a s He Hdoi), Hoa.
    pose proof (@search_openalex_some _ _ _ Hoa) as Hne.
    unfold result_row. rewrite Hname. simpl default.
    rewrite !matching_empty_name.
    rewrite Hdoi, (@map_snd_not_empty _ _ _ Hne).
    reflexivity.
  - intros Hoa Hs2.
    rewrite (@process_author_fallback title doi a s He Hdoi), Hoa, Hs2.
    pose proof (@search_semantic_scholar_some _ _ _ Hs2) as Hne.
    unfold result_row. rewrite Hname. simpl default.
    rewrite !matching_empty_name. simpl (map snd []). simpl (is_empty []).
    rewrite Hdoi, (@map_snd_not_empty _ _ _ Hne).
    reflexivity.
Qed.

End Fallback.

(** C7 at two authors of a paper with a DOI: for the one with an embedded
    affiliation nothing is queried; for the one without, OpenAlex is
    queried first. *)
Lemma fallback_order_witness :
  queries
    (snd (fst (process_author (U := sample_db) openalex_knows (lit "Notes")
                 (Some (lit "10.1000/notes")) ada [])))
  = []
  /\ (queries
        (snd (fst (process_author (U := sample_db) openalex_knows
                     (lit "Notes") (Some (lit "10.1000/notes")) charles [])))
      = [OpenAlex]
      \/ queries
           (snd (fst (process_author (U := sample_db) openalex_knows
                        (lit "Notes") (Some (lit "10.1000/notes"))
                        charles [])))
         = [OpenAlex; SemanticScholar]).
Proof.
  split.
  - apply (fallback_order (U := sample_db) openalex_knows (lit "Notes")
             (Some (lit "10.1000/notes")) ada []).
    simpl. discriminate.
  - apply (fallback_order (U := sample_db) openalex_knows (lit "Notes")
             (Some (lit "10.1000/notes")) charles []); reflexivity.
Defined.

(** C10 at an author without a name: the affiliations OpenAlex returns for
    the two authors it knows both end up in the one row. *)
Lemma nameless_author_collects_every_affiliation_witness :
  process_author (U := sample_db) openalex_knows (lit "Notes")
    (Some (lit "10.1000/notes")) nameless []
  = ([{| paper_title := lit "Notes"; author_name := [];
         affiliations := lit "University of Cambridge; University of Turin";
         doi := lit "10.1000/notes" |}],
     [Query OpenAlex (lit "10.1000/notes");
      Appended
        {| paper_title := lit "Notes"; author_name := [];
           affiliations :=
             lit "University of Cambridge; University of Turin";
           doi := lit "10.1000/notes" |}],
     Ok tt).
Proof.
  destruct (nameless_author_collects_every_affiliation (U := sample_db)
              openalex_knows (lit "Notes") (Some (lit "10.1000/notes"))
              nameless [] eq_refl eq_refl) as [_ H].
  destruct (H eq_refl eq_refl
              [(lit "Charles Babbage", lit "University of Cambridge");
               (lit "Luigi Menabrea", lit "University of Turin")])
    as [Hrow _].
  apply Hrow. reflexivity.
Defined.

(** ** The order of the requests in a whole pass *)

Lemma secondary_first_app l1 l2 :
  secondary_first l1 -> secondary_first l2 -> secondary_first (l1 ++ l2).
Proof.
  intros H1 H2 pre key post Heq.
  apply app_eq_app in Heq. destruct Heq as [l [[-> Hl] | [-> Hl]]].
  - destruct l as [| e l].
    + simpl in Hl.
      destruct (H2 [] key post (eq_sym Hl)) as [pre' Hpre].
      destruct pre'; discriminate Hpre.
    + injection Hl as <- ->.
      apply (H1 pre key l). reflexivity.
  - destruct (H2 l key post Hl) as [pre' ->].
    exists (l1 ++ pre'). rewrite app_assoc. reflexivity.
Qed.

Lemma secondary_first_without log :
  (forall key, ~ In (Query SemanticScholar key) log) -> secondary_first log.
Proof.
  intros Hnone pre key post ->. exfalso.
  apply (Hnone key). apply in_elt.
Qed.

Section PassOrder.
Context {U : UnicodeDB}.
Variable env : services.

Lemma in_order_ret {A} (a : A) : requests_in_order (ret a).
Proof. intros s. apply secondary_first_without. intros key []. Qed.

Lemma in_order_bind {A B} (m : M A) (f : A -> M B) :
  requests_in_order m -> (forall a, requests_in_order (f a)) ->
  requests_in_order (bind m f).
Proof.
  intros Hm Hf s. unfold bind. specialize (Hm s).
  destruct (m s) as [[s1 l1] [a |]]; [| exact Hm].
  specialize (Hf a s1). destruct (f a s1) as [[s2 l2] r].
  apply secondary_first_app; assumption.
Qed.

Lemma in_order_catch {A} (m h : M A) :
  requests_in_order m -> requests_in_order h ->
  requests_in_order (catch m h).
Proof.
  intros Hm Hh s. unfold catch. specialize (Hm s).
  destruct (m s) as [[s1 l1] [a |]]; [exact Hm |].
  specialize (Hh s1). destruct (h s1) as [[s2 l2] r].
  apply secondary_first_app; assumption.
Qed.

Lemma in_order_for_each {A} (l : list A) (body : A -> M unit) :
  (forall x, requests_in_order (body x)) ->
  requests_in_order (for_each l body).
Proof.
  intros Hbody. induction l as [| x rest IH]; simpl.
  - apply in_order_ret.
  - apply in_order_bind; [apply Hbody | intros _; exact IH].
Qed.

Lemma process_author_without_doi title doi a s :
  embedded_affiliations a = [] -> present doi = false ->
  process_author env title doi a s
  = (s ++ [result_row title doi a []],
     [Appended (result_row title doi a [])], Ok tt).
Proof.
  intros He Hdoi. unfold process_author, resolve_affiliations, bind.
  rewrite He, Hdoi. reflexivity.
Qed.

Lemma process_author_in_order title doi a :
  requests_in_order (process_author env title doi a).
Proof.
  intros s.
  assert (Hpair : forall st r key (rest : list event),
            (forall k, ~ In (Query SemanticScholar k) rest) ->
            secondary_first
              (snd (fst (st : list AffiliationRecord,
                         Query OpenAlex key
                           :: Query SemanticScholar key :: rest,
                         r : result unit)))).
  { intros st r key rest Hrest pre k post Heq. simpl in Heq.
    destruct pre as [| e1 [| e2 pre]]; simpl in Heq.
    - discriminate Heq.
    - injection Heq as <- <- <-. exists []. reflexivity.
    - injection Heq as <- <- ->. exfalso.
      apply (Hrest k). apply in_elt. }
  destruct (embedded_affiliations a) as [| x rest] eqn:He.
  - destruct (present doi) eqn:Hdoi.
    + rewrite (@process_author_fallback _ env title doi a s He Hdoi).
      destruct (snd (search_openalex env doi s)) as [found |].
      * destruct (is_empty (matching (full_name a) (default [] found))).
        -- destruct (snd (search_semantic_scholar env doi s));
             cbv zeta; apply Hpair.
           ++ intros k [H | []]. discriminate H.
           ++ intros k [].
        -- apply secondary_first_without. simpl.
           intros k [H | [H | []]]; discriminate H.
      * apply secondary_first_without. simpl.
        intros k [H | []]. discriminate H.
    + rewrite (@process_author_without_doi title doi a s He Hdoi).
      apply secondary_first_without. simpl.
      intros k [H | []]. discriminate H.
  - rewrite process_author_embedded by (rewrite He; reflexivity).
    apply secondary_first_without. simpl.
    intros k [H | []]. discriminate H.
Qed.

(** In the log of a whole pass, Semantic Scholar is only ever asked right
    after OpenAlex has been asked for the same DOI. *)
Lemma pass_in_order titles start_index existing :
  secondary_first (snd (process_papers env titles start_index existing)).
Proof.
  unfold process_papers.
  assert (H : requests_in_order
                (for_each (skipn start_index titles)
                   (fun title => catch (process_paper env title) (ret tt)))).
  { apply in_order_for_each. intros title.
    apply in_order_catch; [| apply in_order_ret].
    unfold process_paper.
    apply in_order_bind.
    - intros s. unfold search_crossref, bind, emit.
      apply secondary_first_without.
      destruct (crossref env (clean_title title)) as [| [| item items] |];
        simpl; intros k [H | []]; discriminate H.
    - intros paper_data. apply in_order_bind.
      + destruct paper_data as [item |]; [| apply in_order_ret].
        apply in_order_for_each. intros a. apply process_author_in_order.
      + intros _ s. apply secondary_first_without. simpl.
        intros k [H | []]. discriminate H. }
  specialize (H (default [] existing)).
  destruct (for_each (skipn start_index titles)
              (fun title => catch (process_paper env title) (ret tt))
              (default [] existing)) as [[final log] r].
  exact H.
Qed.

End PassOrder.

End AffiliationsFacts.

(** * Further properties of the fetcher *)

Module FetcherFacts.
Import PyStr Scholar Traces.

Lemma gets_app l1 l2 : gets (l1 ++ l2) = gets l1 ++ gets l2.
Proof. unfold gets. apply flat_map_app. Qed.

Lemma sleeps_app l1 l2 : sleeps (l1 ++ l2) = sleeps l1 ++ sleeps l2.
Proof. unfold sleeps. apply flat_map_app. Qed.

Lemma attempts_success server rand retries a rest text :
  server a = Status 200 text ->
  attempts server rand retries (a :: rest) = ([Get a], Some text).
Proof. intros Hs. simpl. rewrite Hs. reflexivity. Qed.

Lemma attempts_failure server rand retries a rest :
  ~ succeeds server a ->
  attempts server rand retries (a :: rest)
  = (after_failure server rand retries a
       ++ fst (attempts server rand retries rest),
     snd (attempts server rand retries rest)).
Proof.
  intros Hfail. unfold after_failure. simpl.
  destruct (server a) as [code text |] eqn:Hs.
  - destruct (code =? 200)%Z eqn:H200.
    + exfalso. apply Hfail. apply Z.eqb_eq in H200. subst code.
      exists text. exact Hs.
    + destruct (code =? 429)%Z;
        destruct (attempts server rand retries rest); reflexivity.
  - destruct (Z.of_nat a <? retries - 1)%Z;
      destruct (attempts server rand retries rest); reflexivity.
Qed.

Lemma gets_after_failure server rand retries a :
  gets (after_failure server rand retries a) = [a].
Proof.
  unfold after_failure.
  destruct (server a) as [code text |];
    [destruct (code =? 429)%Z | destruct (Z.of_nat a <? retries - 1)%Z];
    reflexivity.
Qed.

Lemma succeeds_dec server a : succeeds server a \/ ~ succeeds server a.
Proof.
  unfold succeeds. destruct (server a) as [code text |].
  - destruct (Z.eq_dec code 200) as [-> | Hne].
    + left. exists text. reflexivity.
    + right. intros [t Ht]. congruence.
  - right. intros [t Ht]. discriminate Ht.
Qed.

Lemma attempts_first_success server rand retries n a :
  match snd (attempts server rand retries (seq a n)) with
  | Some text =>
      exists i, a <= i < a + n
        /\ server i = Status 200 text
        /\ (forall j, a <= j < i -> ~ succeeds server j)
        /\ gets (fst (attempts server rand retries (seq a n)))
           = seq a (S i - a)
  | None =>
      (forall j, a <= j < a + n -> ~ succeeds server j)
      /\ gets (fst (attempts server rand retries (seq a n))) = seq a n
  end.
Proof.
  revert a. induction n as [| n IH]; intros a.
  - simpl. split; [intros j Hj; lia | reflexivity].
  - specialize (IH (S a)). cbn [seq].
    destruct (succeeds_dec server a) as [[text Hs] | Hfail].
    + rewrite attempts_success with (text := text) by exact Hs.
      cbn [fst snd].
      exists a. split; [lia |]. split; [exact Hs |]. split.
      * intros j Hj. lia.
      * replace (S a - a) with 1 by lia. reflexivity.
    + rewrite attempts_failure by exact Hfail. cbn [fst snd].
      rewrite gets_app, gets_after_failure.
      destruct (snd (attempts server rand retries (seq (S a) n)))
        as [text |].
      * destruct IH as [i [Hi [Hs [Hbefore Hg]]]].
        exists i. split; [lia |]. split; [exact Hs |]. split.
        -- intros j Hj. destruct (Nat.eq_dec j a) as [-> | Hne];
             [exact Hfail | apply Hbefore; lia].
        -- rewrite Hg.
           replace (S i - a) with (S (S i - S a)) by lia. reflexivity.
      * destruct IH as [Hnone Hg]. split.
        -- intros j Hj. destruct (Nat.eq_dec j a) as [-> | Hne];
             [exact Hfail | apply Hnone; lia].
        -- rewrite Hg. reflexivity.
Qed.

(** X1: the fetcher tries the attempts 0, 1, 2, ... in order and stops at
    the first one answered with status 200, whose body it returns; it
    returns nothing exactly when none of the attempts of the budget is
    answered with 200, after making all of them (none for a budget below
    1). *)
Theorem fetch_returns_first_success :
  forall (server : nat -> reply) (rand : nat -> Q) (retries : Z),
    match snd (make_request server rand retries) with
    | Some text =>
        exists i, (Z.of_nat i < retries)%Z
          /\ server i = Status 200 text
          /\ (forall j, j < i -> ~ succeeds server j)
          /\ gets (fst (make_request server rand retries)) = seq 0 (S i)
    | None =>
        (forall j, (Z.of_nat j < retries)%Z -> ~ succeeds server j)
        /\ gets (fst (make_request server rand retries))
           = seq 0 (Z.to_nat retries)
    end.
Proof.
  intros server rand retries. unfold make_request.
  pose proof (attempts_first_success server rand retries
                (Z.to_nat retries) 0) as H.
  destruct (snd (attempts server rand retries (seq 0 (Z.to_nat retries))))
    as [text |].
  - destruct H as [i [Hi [Hs [Hbefore Hg]]]].
    exists i. split; [lia |]. split; [exact Hs |]. split.
    + intros j Hj. apply Hbefore. lia.
    + rewrite Hg. f_equal; lia.
  - destruct H as [Hnone Hg]. split; [| exact Hg].
    intros j Hj. apply Hnone. lia.
Qed.

Lemma sleeps_after_failure_bounded server rand retries a :
  (forall k, (0 <= rand k)%Q /\ (rand k <= 1)%Q) ->
  Forall
    (fun d => ((2 <= d)%Q /\ (d <= 4)%Q)
              \/ d = inject_Z ((Z.of_nat a + 1) * 60))
    (sleeps (after_failure server rand retries a)).
Proof.
  intros Hrand. unfold after_failure.
  destruct (server a) as [code text |].
  - destruct (code =? 429)%Z; simpl; [| constructor].
    constructor; [right; reflexivity | constructor].
  - destruct (Z.of_nat a <? retries - 1)%Z; simpl; [| constructor].
    constructor; [left | constructor].
    apply ScholarFacts.get_random_delay_bounds; apply Hrand.
Qed.

Lemma attempts_waits_bounded server rand retries n a :
  (forall k, (0 <= rand k)%Q /\ (rand k <= 1)%Q) ->
  Forall
    (fun d => ((2 <= d)%Q /\ (d <= 4)%Q)
              \/ exists k, a <= k < a + n
                   /\ d = inject_Z ((Z.of_nat k + 1) * 60))
    (sleeps (fst (attempts server rand retries (seq a n)))).
Proof.
  intros Hrand. revert a. induction n as [| n IH]; intros a.
  - constructor.
  - cbn [seq]. destruct (succeeds_dec server a) as [[text Hs] | Hfail].
    + rewrite attempts_success with (text := text) by exact Hs.
      constructor.
    + rewrite attempts_failure by exact Hfail. cbn [fst].
      rewrite sleeps_app. apply Forall_app. split.
      * eapply Forall_impl;
          [| apply sleeps_after_failure_bounded; exact Hrand].
        intros d [Hd | Hd]; [left; exact Hd | right].
        exists a. split; [lia | exact Hd].
      * eapply Forall_impl; [| apply (IH (S a))].
        intros d [Hd | [k [Hk Hd]]]; [left; exact Hd | right].
        exists k. split; [lia | exact Hd].
Qed.

(** X2: when the random samples lie in [0, 1], every wait of the fetcher is
    either a jittered delay between 2 and 4 seconds or the back-off of
    60 * (k + 1) seconds of an attempt k of the budget. *)
Theorem fetch_waits_are_jitter_or_backoff :
  forall (server : nat -> reply) (rand : nat -> Q) (retries : Z),
    (forall k, (0 <= rand k)%Q /\ (rand k <= 1)%Q) ->
    Forall
      (fun d => ((2 <= d)%Q /\ (d <= 4)%Q)
                \/ exists k, (Z.of_nat k < retries)%Z
                     /\ d = inject_Z ((Z.of_nat k + 1) * 60))
      (sleeps (fst (make_request server rand retries))).
Proof.
  intros server rand retries Hrand. unfold make_request.
  eapply Forall_impl;
    [| apply attempts_waits_bounded; exact Hrand].
  intros d [Hd | [k [Hk Hd]]]; [left; exact Hd | right].
  exists k. split; [lia | exact Hd].
Qed.

Lemma attempts_rate_limited server rand retries n a :
  (forall k, exists text, server k = Status 429 text) ->
  attempts server rand retries (seq a n)
  = (flat_map
       (fun k => [Get k; Sleep (inject_Z ((Z.of_nat k + 1) * 60))])
       (seq a n),
     None).
Proof.
  intros Hs. revert a. induction n as [| n IH]; intros a; [reflexivity |].
  cbn [seq flat_map]. destruct (Hs a) as [text Ha].
  rewrite attempts_failure by (intros [t Ht]; congruence).
  rewrite IH. unfold after_failure. rewrite Ha. reflexivity.
Qed.

(** X3: against a server that answers every request with status 429 the
    fetcher uses up its budget, waits 60 * (k + 1) seconds after attempt k,
    the last attempt included, and returns nothing. *)
Theorem fetch_rate_limited_waits_after_every_attempt :
  forall (server : nat -> reply) (rand : nat -> Q) (retries : Z),
    (forall k, exists text, server k = Status 429 text) ->
    make_request server rand retries
    = (flat_map
         (fun k => [Get k; Sleep (inject_Z ((Z.of_nat k + 1) * 60))])
         (seq 0 (Z.to_nat retries)),
       None).
Proof.
  intros server rand retries Hs. apply attempts_rate_limited. exact Hs.
Qed.

Lemma attempts_all_fail server rand (total : nat) n a :
  (forall k, server k = TransportError) ->
  a + S n = total ->
  attempts server rand (Z.of_nat total) (seq a (S n))
  = (flat_map (fun k => [Get k; Sleep (get_random_delay (rand k))])
       (seq a n)
     ++ [Get (a + n)],
     None).
Proof.
  intros Hs. revert a. induction n as [| n IH]; intros a Htotal.
  - cbn [seq flat_map app].
    rewrite attempts_failure by (intros [t Ht]; rewrite Hs in Ht;
                                 discriminate Ht).
    unfold after_failure. rewrite Hs.
    destruct (Z.ltb_spec (Z.of_nat a) (Z.of_nat total - 1)); [lia |].
    rewrite Nat.add_0_r. reflexivity.
  - cbn [seq flat_map].
    rewrite attempts_failure by (intros [t Ht]; rewrite Hs in Ht;
                                 discriminate Ht).
    change (S a :: seq (S (S a)) n) with (seq (S a) (S n)).
    rewrite (IH (S a)) by lia.
    unfold after_failure. rewrite Hs.
    destruct (Z.ltb_spec (Z.of_nat a) (Z.of_nat total - 1)); [| lia].
    cbn [fst snd]. replace (S a + n) with (a + S n) by lia.
    reflexivity.
Qed.

(** X4: when every request fails with a transport error, the fetcher uses
    up its budget of n >= 1 attempts, waits a jittered delay after each
    attempt but the last, and returns nothing right after the last
    attempt. *)
Theorem fetch_transport_errors_wait_between_attempts :
  forall (server : nat -> reply) (rand : nat -> Q) (n : nat),
    (forall k, server k = TransportError) ->
    make_request server rand (Z.of_nat (S n))
    = (flat_map (fun k => [Get k; Sleep (get_random_delay (rand k))])
         (seq 0 n)
       ++ [Get n],
       None).
Proof.
  intros server rand n Hs. unfold make_request.
  rewrite Nat2Z.id.
  apply attempts_all_fail; [exact Hs | reflexivity].
Qed.

(** X1 on a budget of 3 attempts against a connection that fails once. *)
Lemma fetch_returns_first_success_witness :
  exists i, (Z.of_nat i < 3)%Z
    /\ server_error_then_200 i = Status 200 (lit "ok")
    /\ (forall j, j < i -> ~ succeeds server_error_then_200 j)
    /\ gets (fst (make_request server_error_then_200
                    (fun _ => (1 # 2)%Q) 3))
       = seq 0 (S i).
Proof.
  exact (fetch_returns_first_success server_error_then_200
           (fun _ => (1 # 2)%Q) 3).
Defined.

(** X2 on a budget of 3 attempts against a connection that fails once. *)
Lemma fetch_waits_are_jitter_or_backoff_witness :
  Forall
    (fun d => ((2 <= d)%Q /\ (d <= 4)%Q)
              \/ exists k, (Z.of_nat k < 3)%Z
                   /\ d = inject_Z ((Z.of_nat k + 1) * 60))
    (sleeps (fst (make_request server_error_then_200
                    (fun _ => (1 # 2)%Q) 3))).
Proof.
  apply fetch_waits_are_jitter_or_backoff.
  intros k. split; discriminate.
Defined.

(** X3 on a budget of 3 attempts. *)
Lemma fetch_rate_limited_waits_after_every_attempt_witness :
  make_request (fun _ => Status 429 []) (fun _ => (1 # 2)%Q) 3
  = ([Get 0; Sleep (inject_Z 60); Get 1; Sleep (inject_Z 120);
      Get 2; Sleep (inject_Z 180)], None).
Proof.
  apply (fetch_rate_limited_waits_after_every_attempt
           (fun _ => Status 429 []) (fun _ => (1 # 2)%Q) 3).
  intros k. exists []. reflexivity.
Defined.

(** X4 on a budget of 3 attempts. *)
Lemma fetch_transport_errors_wait_between_attempts_witness :
  make_request (fun _ => TransportError) (fun _ => (1 # 2)%Q) 3
  = ([Get 0; Sleep (get_random_delay (1 # 2));
      Get 1; Sleep (get_random_delay (1 # 2)); Get 2], None).
Proof.
  apply (fetch_transport_errors_wait_between_attempts
           (fun _ => TransportError) (fun _ => (1 # 2)%Q) 2).
  intros k. reflexivity.
Defined.

End FetcherFacts.

(** * Further properties of the extractor and the collector *)

Module ExtractorFacts.
Import PyStr Scholar Traces.

(** ** Splitting the byline *)

Lemma split_from_skip sep k cur s :
  split_from sep k cur s = split_from sep 0 cur (skipn k s).
Proof.
  revert k. induction s as [| c t IH]; intros k.
  - destruct k; reflexivity.
  - destruct k as [| k]; [reflexivity |]. simpl. apply IH.
Qed.

Lemma is_prefix_app sep s :
  is_prefix sep s = true -> s = sep ++ skipn (length sep) s.
Proof.
  revert s. induction sep as [| a sep IH]; intros s H; [reflexivity |].
  destruct s as [| b s]; [discriminate H |].
  simpl in H. apply andb_true_iff in H. destruct H as [Hab H].
  apply N.eqb_eq in Hab. subst b. simpl. f_equal. apply IH. exact H.
Qed.

(** One step of the scan: the text up to the first separator, and the
    rest. *)
Lemma split_from_first sep s cur :
  sep <> [] ->
  (split_from sep 0 cur s = [rev cur ++ s]
   /\ none_starts_before sep (length s) s)
  \/ exists first rest,
       s = first ++ sep ++ rest
       /\ none_starts_before sep (length first) s
       /\ split_from sep 0 cur s
          = (rev cur ++ first) :: split_from sep 0 [] rest.
Proof.
  intros Hsep. revert cur. induction s as [| c t IH]; intros cur.
  - left. split; [simpl; rewrite app_nil_r; reflexivity |].
    intros p Hp. simpl in Hp. lia.
  - cbn [split_from]. destruct (is_prefix sep (c :: t)) eqn:Hpre.
    + right. exists [], (skipn (length sep) (c :: t)). split; [| split].
      * simpl app. apply is_prefix_app. exact Hpre.
      * intros p Hp. simpl in Hp. lia.
      * rewrite app_nil_r, split_from_skip. f_equal. f_equal.
        destruct sep as [| a sep]; [contradiction |].
        simpl. rewrite Nat.sub_0_r. reflexivity.
    + destruct (IH (c :: cur)) as [[Heq Hnone] | [first [rest [Ht [Hnone Heq]]]]].
      * left. split.
        -- rewrite Heq. simpl. rewrite <- app_assoc. reflexivity.
        -- intros [| p] Hp; [exact Hpre |].
           simpl. apply Hnone. simpl in Hp. lia.
      * right. exists (c :: first), rest. split; [| split].
        -- simpl. rewrite Ht. reflexivity.
        -- intros [| p] Hp; [exact Hpre |].
           simpl. apply Hnone. simpl in Hp. lia.
        -- rewrite Heq. simpl. rewrite <- app_assoc. reflexivity.
Qed.

Section Byline.
Context {U : UnicodeDB}.

(** X5: the authors of a record are the byline up to its first " - " (the
    whole byline when there is none, and then the venue is empty), and the
    venue is what follows up to the next " - ". *)
Theorem authors_and_venue_are_the_first_two_segments :
  forall (b : result_block) (r : ParsedPaper),
    parse_citing_paper b = Some r ->
    let text := match byline b with Some t => t | None => [] end in
    let sep := lit " - " in
    none_starts_before sep (length (authors r)) text
    /\ ((text = authors r /\ venue r = [])
        \/ exists rest,
             text = authors r ++ sep ++ rest
             /\ none_starts_before sep (length (venue r)) rest
             /\ (rest = venue r
                 \/ exists rest2, rest = venue r ++ sep ++ rest2)).
Proof.
  intros b r Hparse text sep. unfold parse_citing_paper in Hparse.
  fold text in Hparse. fold sep in Hparse.
  destruct (match title_section b with
            | Some h =>
                match heading_anchor h with
                | Some (Some url) => Some url
                | Some None => None
                | None => Some []
                end
            | None => Some []
            end) as [url |]; [| discriminate].
  injection Hparse as <-. cbn [authors venue].
  assert (Hsep : sep <> []) by discriminate.
  unfold split.
  destruct (split_from_first text [] Hsep)
    as [[Heq Hnone] | [first [rest [Ht [Hnone Heq]]]]]; rewrite Heq.
  - cbn [nth rev app]. split; [exact Hnone | left; split; reflexivity].
  - cbn [nth rev app]. split; [exact Hnone | right].
    exists rest. split; [exact Ht |].
    destruct (split_from_first rest [] Hsep)
      as [[Heq2 Hnone2] | [second [rest2 [Ht2 [Hnone2 Heq2]]]]];
      rewrite Heq2; cbn [nth rev app].
    + split; [exact Hnone2 | left; reflexivity].
    + split; [exact Hnone2 | right; exists rest2; exact Ht2].
Qed.

(** ** One record per well-formed block *)

Lemma parse_none_iff b :
  parse_citing_paper b = None <-> anchor_without_href b = true.
Proof.
  unfold parse_citing_paper, anchor_without_href.
  destruct (title_section b) as [h |]; [| split; discriminate].
  destruct (heading_anchor h) as [[url |] |]; split;
    try discriminate; reflexivity.
Qed.

(** X6: a page yields one record per result block, in order, except for
    the blocks whose title anchor has no [href], which are skipped; every
    record carries the title of the cited paper. *)
Theorem one_record_per_well_formed_block :
  forall (cited : pystr) (blocks : list result_block),
    length (citations_of_blocks cited blocks)
    + length (filter anchor_without_href blocks)
    = length blocks
    /\ Forall (fun c => cited_paper c = cited)
         (citations_of_blocks cited blocks)
    /\ map (fun c => Some (paper c)) (citations_of_blocks cited blocks)
       = map parse_citing_paper
           (filter (fun b => negb (anchor_without_href b)) blocks).
Proof.
  intros cited blocks. induction blocks as [| b rest IH].
  - repeat split. constructor.
  - destruct IH as [Hlen [Hall Hmap]]. cbn [citations_of_blocks filter].
    destruct (parse_citing_paper b) as [d |] eqn:Hp.
    + assert (Hb : anchor_without_href b = false).
      { destruct (anchor_without_href b) eqn:Hb; [| reflexivity].
        apply parse_none_iff in Hb. congruence. }
      rewrite Hb. cbn [negb length map]. rewrite Hp, Hmap.
      split; [lia | split; [| reflexivity]].
      constructor; [reflexivity | exact Hall].
    + apply parse_none_iff in Hp. rewrite Hp. cbn [negb length].
      split; [lia | split; [exact Hall | exact Hmap]].
Qed.

(** ** The page count *)

Lemma int_from_nonneg acc s n :
  (0 <= acc)%Z -> int_from acc s = Some n -> (0 <= n)%Z.
Proof.
  revert acc. induction s as [| c t IH]; intros acc Hacc; cbn [int_from].
  - intros H. injection H as <-. exact Hacc.
  - destruct (decimal_value c) as [v |]; [| discriminate].
    apply IH. lia.
Qed.

Lemma label_numbers_nonneg labels ns :
  label_numbers labels = Some ns -> Forall (fun n => (0 <= n)%Z) ns.
Proof.
  revert ns. induction labels as [| l rest IH]; intros ns; simpl.
  - intros H. injection H as <-. constructor.
  - destruct (isdigit l).
    + destruct (int l) as [n |] eqn:Hi; [| discriminate].
      destruct (label_numbers rest) as [ns' |]; [| discriminate].
      intros H. injection H as <-. constructor; [| apply IH; reflexivity].
      unfold int in Hi. destruct l; [discriminate |].
      apply (int_from_nonneg _ (Z.le_refl 0) Hi).
    + apply IH.
Qed.

(** X7: the page count is never negative. *)
Theorem page_count_is_not_negative :
  forall p : page, (0 <= get_total_citation_pages p)%Z.
Proof.
  intros p. unfold get_total_citation_pages.
  destruct (results p) as [| blk blks]; [lia |].
  destruct (footer p) as [[| l labels] |]; try lia.
  destruct (label_numbers (l :: labels)) as [ns |] eqn:Hn; [| lia].
  apply label_numbers_nonneg in Hn.
  destruct ns as [| x t]; simpl; [lia |].
  destruct (ScholarFacts.fold_left_max_bounds t x) as [_ [Hle _]].
  inversion Hn; subst. lia.
Qed.

(** ** What the final table holds *)

Lemma comprehension_sound m citations kept :
  comprehension m citations = Some kept ->
  forall c, In c kept -> In c citations /\ at_least m c = true.
Proof.
  revert kept. induction citations as [| x rest IH]; intros kept; simpl.
  - intros H. injection H as <-. intros c [].
  - destruct (keeps m x) as [keep |] eqn:Hk; [| discriminate].
    destruct (comprehension m rest) as [kept' |]; [| discriminate].
    intros H. injection H as <-. intros c Hc.
    assert (Hrest : In c kept' -> In c (x :: rest) /\ at_least m c = true).
    { intros Hin. destruct (IH kept' eq_refl c Hin). split; [right |]; auto. }
    destruct keep; [| apply Hrest; exact Hc].
    destruct Hc as [<- | Hc]; [| apply Hrest; exact Hc].
    split; [left; reflexivity |].
    unfold keeps in Hk. unfold at_least.
    destruct (truthy (year (paper x))); simpl in Hk; [| discriminate].
    destruct (isdigit (year (paper x))); simpl in Hk; [| discriminate].
    destruct (int (year (paper x))); [| discriminate].
    injection Hk as ->. reflexivity.
Qed.

Lemma accumulate_sound min_year fetched c :
  In c (accumulate min_year fetched) ->
  (exists citations, In (Some citations) fetched /\ In c citations)
  /\ forall m, min_year = Some m -> m <> 0%Z -> at_least m c = true.
Proof.
  induction fetched as [| entry rest IH]; simpl; [intros [] |].
  intros Hin. apply in_app_or in Hin. destruct Hin as [Hin | Hin].
  - destruct entry as [citations |]; [| destruct Hin].
    destruct (filter_by_year min_year citations) as [kept |] eqn:Hf;
      [| destruct Hin].
    unfold filter_by_year in Hf.
    destruct min_year as [m |].
    + destruct (m =? 0)%Z eqn:Hm.
      * injection Hf as <-. split.
        -- exists citations. auto.
        -- intros m' Heq Hne. injection Heq as <-.
           apply Z.eqb_eq in Hm. contradiction.
      * destruct (comprehension_sound _ _ Hf c Hin) as [Hc Hat]. split.
        -- exists citations. auto.
        -- intros m' Heq _. injection Heq as <-. exact Hat.
    + injection Hf as <-. split.
      * exists citations. auto.
      * intros m' Heq. discriminate Heq.
  - destruct (IH Hin) as [[citations [Hf Hc]] Hat]. split.
    + exists citations. auto.
    + exact Hat.
Qed.

(** X8: every record of the final table was fetched for one of the
    publications, and with a minimum year other than 0 its year is
    digit-only and reads as an integer that is at least the minimum. *)
Theorem final_table_is_fetched_and_recent :
  forall (min_year : option Z)
         (fetched : list (option (list CitationRecord)))
         (c : CitationRecord),
    In c (get_all_citations min_year fetched) ->
    (exists citations, In (Some citations) fetched /\ In c citations)
    /\ forall m, min_year = Some m -> m <> 0%Z ->
         exists y, isdigit (year (paper c)) = true
                   /\ int (year (paper c)) = Some y /\ (m <= y)%Z.
Proof.
  intros min_year fetched c Hin. unfold get_all_citations in Hin.
  apply (Permutation_in c
           (Permutation_sym (ScholarFacts.sort_values_permutation _)))
    in Hin.
  destruct (accumulate_sound _ _ _ Hin) as [Hsrc Hat].
  split; [exact Hsrc |].
  intros m Hm Hne. apply ScholarFacts.at_least_spec. apply (Hat m Hm Hne).
Qed.

End Byline.

(** X5 on the byline "J Doe, A Roe - Nature, 2015 - nature.com". *)
Lemma authors_and_venue_are_the_first_two_segments_witness :
  exists r,
    parse_citing_paper (U := sample_db) plain_block = Some r
    /\ authors r = lit "J Doe, A Roe"
    /\ venue r = lit "Nature, 2015"
    /\ none_starts_before (lit " - ") (length (authors r))
         (lit "J Doe, A Roe - Nature, 2015 - nature.com").
Proof.
  eexists. split; [reflexivity |]. split; [reflexivity |].
  split; [reflexivity |].
  apply (authors_and_venue_are_the_first_two_segments (U := sample_db)
           plain_block eq_refl).
Defined.

(** X8 on the years "2020", "2018", "", "abc" and the minimum 2019. *)
Lemma final_table_is_fetched_and_recent_witness :
  exists y,
    isdigit (U := sample_db) (lit "2020") = true
    /\ int (U := sample_db) (lit "2020") = Some y /\ (2019 <= y)%Z.
Proof.
  destruct (final_table_is_fetched_and_recent (U := sample_db)
              (Some 2019%Z) [Some four_years]
              (citation (lit "2020") (lit "A")))
    as [_ H].
  - left. reflexivity.
  - apply (H 2019%Z eq_refl). discriminate.
Defined.

End ExtractorFacts.

(** * Properties of the collector *)

Module CollectorFacts.
Import PyStr Scholar Traces Collector.

Lemma requested_app a b : requested (a ++ b) = requested a ++ requested b.
Proof. unfold requested. apply flat_map_app. Qed.

Lemma waited_app a b : waited (a ++ b) = waited a ++ waited b.
Proof. unfold waited. apply flat_map_app. Qed.

Lemma stored_app a b : stored (a ++ b) = stored a ++ stored b.
Proof. unfold stored. apply flat_map_app. Qed.

Lemma requested_effects url effects :
  requested (map (action_of url) effects)
  = repeat url (length (gets effects)).
Proof.
  induction effects as [| e rest IH]; [reflexivity |].
  destruct e as [k | d]; simpl; [f_equal |]; exact IH.
Qed.

Lemma waited_effects url effects :
  waited (map (action_of url) effects) = sleeps effects.
Proof.
  induction effects as [| e rest IH]; [reflexivity |].
  destruct e as [k | d]; simpl; [| f_equal]; exact IH.
Qed.

Lemma stored_effects url effects :
  stored (map (action_of url) effects) = [].
Proof.
  induction effects as [| e rest IH]; [reflexivity |].
  destruct e as [k | d]; simpl; exact IH.
Qed.

(** ** One fetch *)

Section Fetch.
Variable w : web.

Lemma fetch_requests url st :
  exists n, 1 <= n <= 3
    /\ requested (snd (fst (fetch w url st))) = repeat url n.
Proof.
  unfold fetch. cbn [fst snd]. rewrite requested_effects.
  exists (length
            (gets (fst (make_request
                          (fun k => reply_to w (requests_made st + k) url)
                          (fun k => retry_sample w (requests_made st + k))
                          3)))).
  split; [| reflexivity].
  pose proof (FetcherFacts.attempts_first_success
                (fun k => reply_to w (requests_made st + k) url)
                (fun k => retry_sample w (requests_made st + k)) 3 3 0)
    as H.
  unfold make_request. change (Z.to_nat 3) with 3.
  destruct (snd (attempts
                   (fun k => reply_to w (requests_made st + k) url)
                   (fun k => retry_sample w (requests_made st + k)) 3
                   (seq 0 3))).
  - destruct H as [i [Hi [_ [_ Hg]]]]. rewrite Hg, length_seq. lia.
  - destruct H as [_ Hg]. rewrite Hg, length_seq. lia.
Qed.

Lemma fetch_stores_nothing url st :
  stored (snd (fst (fetch w url st))) = [].
Proof. unfold fetch. cbn [fst snd]. apply stored_effects. Qed.

Lemma fetch_waits url st :
  samples_in_unit_interval w ->
  Forall allowed_wait (waited (snd (fst (fetch w url st)))).
Proof.
  intros Hw. unfold fetch. cbn [fst snd]. rewrite waited_effects.
  unfold make_request. change (Z.to_nat 3) with 3.
  eapply Forall_impl;
    [| apply FetcherFacts.attempts_waits_bounded;
       intros k; apply (Hw (requests_made st + k))].
  intros d [Hd | [k [Hk Hd]]]; [left; exact Hd | right].
  exists k. split; [lia | exact Hd].
Qed.

Lemma pause_waits st :
  samples_in_unit_interval w ->
  Forall allowed_wait (waited (fst (pause w st))).
Proof.
  intros Hw. unfold pause. simpl. constructor; [| constructor].
  left. apply ScholarFacts.get_random_delay_bounds;
    apply (Hw (pauses_made st)).
Qed.

End Fetch.

(** ** The URLs of the pages *)

Lemma lit_injective a b : lit a = lit b -> a = b.
Proof.
  unfold lit. intros H.
  rewrite <- (string_of_list_ascii_of_string a),
    <- (string_of_list_ascii_of_string b).
  f_equal.
  assert (Hmap : map ascii_of_N (map N_of_ascii (list_ascii_of_string a))
                 = map ascii_of_N (map N_of_ascii (list_ascii_of_string b)))
    by (rewrite H; reflexivity).
  rewrite !map_map in Hmap.
  rewrite (map_ext _ (fun x => x) ascii_N_embedding) in Hmap.
  rewrite (map_ext (fun x => ascii_of_N (N_of_ascii x)) (fun x => x)
             ascii_N_embedding) in Hmap.
  rewrite !map_id in Hmap. exact Hmap.
Qed.

Lemma to_uint_not_nil n : Nat.to_uint n <> Decimal.Nil.
Proof.
  intros H.
  assert (Hn : n = 0)
    by (rewrite <- (DecimalNat.Unsigned.of_to n), H; reflexivity).
  subst n. discriminate H.
Qed.

Lemma str_of_nat_injective n m : str_of_nat n = str_of_nat m -> n = m.
Proof.
  unfold str_of_nat. intros H. apply lit_injective in H.
  apply DecimalNat.Unsigned.to_uint_inj.
  pose proof (DecimalString.NilZero.usu (Nat.to_uint n)
                (to_uint_not_nil n)) as Hn.
  pose proof (DecimalString.NilZero.usu (Nat.to_uint m)
                (to_uint_not_nil m)) as Hm.
  rewrite H in Hn. congruence.
Qed.

(** Different pages of a feed have different URLs. *)
Lemma page_url_injective url i j : page_url url i = page_url url j -> i = j.
Proof.
  assert (Hlonger : forall suffix : pystr,
            url = url ++ lit "&start=" ++ suffix -> False).
  { intros suffix H. apply (f_equal (@length N)) in H.
    rewrite !length_app in H. simpl in H. lia. }
  destruct i as [| i]; destruct j as [| j]; unfold page_url; intros H.
  - reflexivity.
  - exfalso. apply (Hlonger _ H).
  - exfalso. apply (Hlonger _ (eq_sym H)).
  - apply app_inv_head in H. apply app_inv_head in H.
    apply str_of_nat_injective in H. lia.
Qed.

(** ** The pages of one publication *)

Section Run.
Context {U : UnicodeDB}.
Variable w : web.
Variable lib : library.

Lemma page_url_later url a :
  1 <= a -> page_url url a = url ++ lit "&start=" ++ str_of_nat (a * 10).
Proof. destruct a; [lia | reflexivity]. Qed.

Lemma tagged_blocks cited blocks :
  Forall (fun c => cited_paper c = cited) (citations_of_blocks cited blocks).
Proof.
  induction blocks as [| b rest IH]; simpl; [constructor |].
  destruct (parse_citing_paper b); [constructor; [reflexivity |] |];
    exact IH.
Qed.

Lemma remaining_pages_spec url cited n a st :
  1 <= a ->
  match remaining_pages w lib url cited (seq a n) st with
  | (citations, acts, _) =>
      (exists counts,
         length counts <= n
         /\ Forall (fun c => 1 <= c <= 3) counts
         /\ requested acts = page_bursts url a counts)
      /\ Forall (fun c => cited_paper c = cited) citations
      /\ stored acts = []
      /\ (samples_in_unit_interval w -> Forall allowed_wait (waited acts))
  end.
Proof.
  revert a st. induction n as [| n IH]; intros a st Ha.
  - simpl. split.
    + exists []. split; [simpl; lia | split; [constructor | reflexivity]].
    + split; [constructor | split; [reflexivity | intros _; constructor]].
  - cbn [seq remaining_pages]. rewrite <- (page_url_later url Ha).
    destruct (fetch_requests w (page_url url a) st) as [n0 [Hn0 Hreq]].
    pose proof (fetch_stores_nothing w (page_url url a) st) as Hst.
    pose proof (@fetch_waits w (page_url url a) st) as Hwt.
    destruct (fetch w (page_url url a) st) as [[r acts] st1].
    cbn [fst snd] in Hreq, Hst, Hwt.
    assert (Hbreak :
              (exists counts,
                 length counts <= S n
                 /\ Forall (fun c => 1 <= c <= 3) counts
                 /\ requested acts = page_bursts url a counts)
              /\ Forall (fun c => cited_paper c = cited) []
              /\ stored acts = []
              /\ (samples_in_unit_interval w ->
                  Forall allowed_wait (waited acts))).
    { split; [| repeat split; [constructor | exact Hst | exact Hwt]].
      exists [n0]. split; [simpl; lia |].
      split; [constructor; [exact Hn0 | constructor] |].
      simpl. rewrite app_nil_r. exact Hreq. }
    destruct r as [[| ch content] |]; [exact Hbreak | | exact Hbreak].
    pose proof (@pause_waits w st1) as Hpw.
    destruct (pause w st1) as [acts2 st2] eqn:Hp.
    assert (Hacts2 : requested acts2 = [] /\ stored acts2 = []).
    { unfold pause in Hp. injection Hp as <- _. split; reflexivity. }
    destruct Hacts2 as [Hr2 Hs2].
    specialize (IH (S a) st2 (Nat.le_trans _ _ _ Ha (Nat.le_succ_diag_r a))).
    destruct (remaining_pages w lib url cited (seq (S a) n) st2)
      as [[more acts3] st3].
    destruct IH as [[counts [Hlen [Hall Hreq3]]] [Htag [Hst3 Hwt3]]].
    split; [| split; [| split]].
    + exists (n0 :: counts). split; [simpl; lia |].
      split; [constructor; assumption |].
      rewrite !requested_app, Hreq, Hr2, Hreq3. reflexivity.
    + apply Forall_app. split; [apply tagged_blocks | exact Htag].
    + rewrite !stored_app, Hst, Hs2, Hst3. reflexivity.
    + intros Hw. rewrite !waited_app. cbn [fst] in Hpw.
      repeat (apply Forall_app; split); auto.
Qed.

Lemma get_citations_for_paper_spec url cited st :
  match get_citations_for_paper w lib url cited st with
  | (citations, acts, _) =>
      (exists counts,
         counts <> []
         /\ (Z.of_nat (length counts)
             <= Z.max 1
                  match fst (fst (fetch w url st)) with
                  | Some content =>
                      get_total_citation_pages (soup_page lib content)
                  | None => 0
                  end)%Z
         /\ Forall (fun c => 1 <= c <= 3) counts
         /\ requested acts = page_bursts url 0 counts)
      /\ Forall (fun c => cited_paper c = cited) citations
      /\ stored acts = []
      /\ (samples_in_unit_interval w -> Forall allowed_wait (waited acts))
  end.
Proof.
  unfold get_citations_for_paper.
  destruct (fetch_requests w url st) as [n0 [Hn0 Hreq]].
  pose proof (fetch_stores_nothing w url st) as Hst.
  pose proof (@fetch_waits w url st) as Hwt.
  destruct (fetch w url st) as [[r acts] st1].
  cbn [fst snd] in *.
  assert (Hstop : forall total : Z,
            (exists counts,
               counts <> []
               /\ (Z.of_nat (length counts) <= Z.max 1 total)%Z
               /\ Forall (fun c => 1 <= c <= 3) counts
               /\ requested acts = page_bursts url 0 counts)
            /\ Forall (fun c => cited_paper c = cited) []
            /\ stored acts = []
            /\ (samples_in_unit_interval w ->
                Forall allowed_wait (waited acts))).
  { intros total.
    split; [| repeat split; [constructor | exact Hst | exact Hwt]].
    exists [n0]. split; [discriminate |]. split; [simpl; lia |].
    split; [constructor; [exact Hn0 | constructor] |].
    simpl. rewrite app_nil_r. exact Hreq. }
  destruct r as [[| ch content] |]; [apply Hstop | | apply Hstop].
  destruct (get_total_citation_pages (soup_page lib (ch :: content)) =? 0)%Z;
    [apply Hstop |].
  pose proof (remaining_pages_spec url cited
                (Z.to_nat
                   (get_total_citation_pages (soup_page lib (ch :: content)))
                 - 1) st1 (Nat.le_refl 1)) as H.
  destruct (remaining_pages w lib url cited
              (seq 1
                 (Z.to_nat
                    (get_total_citation_pages
                       (soup_page lib (ch :: content))) - 1)) st1)
    as [[more acts2] st2].
  destruct H as [[counts [Hlen [Hall Hreq2]]] [Htag [Hst2 Hwt2]]].
  split; [| split; [| split]].
  - exists (n0 :: counts). split; [discriminate |].
    split; [simpl length; lia |].
    split; [constructor; assumption |].
    rewrite requested_app, Hreq, Hreq2. reflexivity.
  - apply Forall_app. split; [apply tagged_blocks | exact Htag].
  - rewrite stored_app, Hst, Hst2. reflexivity.
  - intros Hw. rewrite waited_app. apply Forall_app. auto.
Qed.

(** X9: for one publication, page 0 is requested first and the pages 1, 2,
    ... follow in order, each in one burst of 1 to 3 attempts and none of
    them twice; no more pages are requested than the page count read off
    page 0 (one page when page 0 cannot be fetched); and every record
    carries the title of the cited paper. *)
Theorem pages_are_requested_in_order :
  forall (cited_by_url cited_paper_title : pystr) (st : clock),
    let '(citations, acts, _) :=
      get_citations_for_paper w lib cited_by_url cited_paper_title st in
    (exists counts,
       counts <> []
       /\ (Z.of_nat (length counts)
           <= Z.max 1
                match fst (fst (fetch w cited_by_url st)) with
                | Some content =>
                    get_total_citation_pages (soup_page lib content)
                | None => 0
                end)%Z
       /\ Forall (fun c => 1 <= c <= 3) counts
       /\ requested acts = page_bursts cited_by_url 0 counts)
    /\ (forall i j,
          page_url cited_by_url i = page_url cited_by_url j -> i = j)
    /\ Forall (fun c => cited_paper c = cited_paper_title) citations.
Proof.
  intros url cited st.
  pose proof (get_citations_for_paper_spec url cited st) as H.
  destruct (get_citations_for_paper w lib url cited st)
    as [[citations acts] st'].
  destruct H as [Hcounts [Htag _]].
  split; [exact Hcounts | split; [apply page_url_injective | exact Htag]].
Qed.

(** ** The rows of the profile *)

Lemma filter_by_year_sound min_year citations kept :
  filter_by_year min_year citations = Some kept ->
  forall c, In c kept ->
    In c citations
    /\ forall m, min_year = Some m -> m <> 0%Z -> at_least m c = true.
Proof.
  unfold filter_by_year. destruct min_year as [m |].
  - destruct (m =? 0)%Z eqn:Hm.
    + intros H. injection H as <-. intros c Hc. split; [exact Hc |].
      intros m' Heq Hne. injection Heq as <-.
      apply Z.eqb_eq in Hm. contradiction.
    + intros H c Hc.
      destruct (ExtractorFacts.comprehension_sound _ _ H c Hc) as [Hin Hat].
      split; [exact Hin |]. intros m' Heq _. injection Heq as <-. exact Hat.
  - intros H. injection H as <-. intros c Hc. split; [exact Hc |].
    intros m' Heq. discriminate Heq.
Qed.

Lemma visit_row_spec min_year row st :
  match visit_row w lib min_year row st with
  | (kept, acts, _) =>
      Forall (from_row lib min_year row) kept
      /\ stored acts = []
      /\ (samples_in_unit_interval w -> Forall allowed_wait (waited acts))
  end.
Proof.
  unfold visit_row.
  pose proof (@pause_waits w st) as Hpw0.
  assert (Hnone : match pause w st with
                  | (acts2, st2) =>
                      Forall (from_row lib min_year row) []
                      /\ stored acts2 = []
                      /\ (samples_in_unit_interval w ->
                          Forall allowed_wait (waited acts2))
                  end).
  { destruct (pause w st) as [acts2 st2] eqn:Hp.
    split; [constructor | split; [| exact Hpw0]].
    unfold pause in Hp. injection Hp as <- _. reflexivity. }
  destruct (get_cited_by_url lib row) as [[| ch url] |] eqn:Hurl;
    [destruct (pause w st); exact Hnone | | destruct (pause w st);
                                            exact Hnone].
  pose proof (get_citations_for_paper_spec (ch :: url) (paper_title_of row)
                st) as H.
  destruct (get_citations_for_paper w lib (ch :: url) (paper_title_of row)
              st) as [[citations acts] st1].
  destruct H as [_ [Htag [Hst Hwt]]].
  destruct (filter_by_year min_year citations) as [kept |] eqn:Hf.
  - pose proof (@pause_waits w st1) as Hpw.
    destruct (pause w st1) as [acts2 st2] eqn:Hp.
    assert (Hs2 : stored acts2 = [])
      by (unfold pause in Hp; injection Hp as <- _; reflexivity).
    split; [| split].
    + apply Forall_forall. intros c Hc.
      destruct (filter_by_year_sound _ _ Hf c Hc) as [Hin Hat].
      rewrite Forall_forall in Htag.
      split; [rewrite Hurl; discriminate | split; [apply Htag |]];
        assumption.
    + rewrite stored_app, Hst, Hs2. reflexivity.
    + intros Hw. rewrite waited_app. apply Forall_app. auto.
  - split; [constructor | split; assumption].
Qed.

Lemma visit_rows_spec min_year rows st :
  match visit_rows w lib min_year rows st with
  | (all_citations, acts, _) =>
      Forall (fun c => exists row, In row rows /\ from_row lib min_year row c)
        all_citations
      /\ stored acts = []
      /\ (samples_in_unit_interval w -> Forall allowed_wait (waited acts))
  end.
Proof.
  revert st. induction rows as [| row rest IH]; intros st.
  - simpl. split; [constructor | split; [reflexivity |]].
    intros _. constructor.
  - cbn [visit_rows]. pose proof (visit_row_spec min_year row st) as H.
    destruct (visit_row w lib min_year row st) as [[kept acts] st1].
    specialize (IH st1).
    destruct (visit_rows w lib min_year rest st1) as [[more acts2] st2].
    destruct H as [Hk [Hs Hw]]. destruct IH as [Hm [Hs2 Hw2]].
    split; [| split].
    + apply Forall_app. split.
      * eapply Forall_impl; [| exact Hk].
        intros c Hc. exists row. split; [left; reflexivity | exact Hc].
      * eapply Forall_impl; [| exact Hm].
        intros c [r [Hr Hc]]. exists r. split; [right |]; assumption.
    + rewrite stored_app, Hs, Hs2. reflexivity.
    + intros Hu. rewrite waited_app. apply Forall_app. auto.
Qed.

End Run.

(** ** A whole run *)

Section WholeRun.
Context {U : UnicodeDB}.
Variable w : web.
Variable lib : library.

Lemma sort_values_in rows c : In c (sort_values rows) -> In c rows.
Proof.
  apply Permutation_in. apply Permutation_sym.
  apply ScholarFacts.sort_values_permutation.
Qed.

(** X10: when none of the three attempts to fetch the profile is answered
    with status 200, the run asks for the profile three times and for
    nothing else, stores no table and returns an empty one. *)
Theorem unreachable_profile_gives_empty_table :
  forall (timestamp scholar_id : pystr) (min_year : option Z),
    (forall k, k < 3 ->
       ~ succeeds (fun k => reply_to w k (profile_url scholar_id)) k) ->
    fst (get_all_citations_run w lib timestamp scholar_id min_year) = []
    /\ requested
         (snd (get_all_citations_run w lib timestamp scholar_id min_year))
       = repeat (profile_url scholar_id) 3
    /\ stored
         (snd (get_all_citations_run w lib timestamp scholar_id min_year))
       = [].
Proof.
  intros timestamp scholar_id min_year Hfail.
  unfold get_all_citations_run, fetch. cbn [requests_made pauses_made].
  pose proof (FetcherFacts.attempts_first_success
                (fun k => reply_to w (0 + k) (profile_url scholar_id))
                (fun k => retry_sample w (0 + k)) 3 3 0) as H.
  unfold make_request. change (Z.to_nat 3) with 3.
  destruct (snd (attempts
                   (fun k => reply_to w (0 + k) (profile_url scholar_id))
                   (fun k => retry_sample w (0 + k)) 3 (seq 0 3)))
    as [text |].
  - exfalso. destruct H as [i [Hi [Hs _]]].
    apply (Hfail i); [lia |]. exists text. exact Hs.
  - destruct H as [_ Hg]. cbn [fst snd].
    rewrite requested_effects, stored_effects, Hg.
    repeat split.
Qed.

(** X11: the table returned is sorted; it is stored exactly when it is not
    empty, once, as the last thing the run does, under the name built from
    the scholar id and the time stamp, and what is stored is what is
    returned. *)
Theorem table_is_stored_once_when_not_empty :
  forall (timestamp scholar_id : pystr) (min_year : option Z),
    let '(df, acts) :=
      get_all_citations_run w lib timestamp scholar_id min_year in
    StronglySorted in_order df
    /\ ((df = [] /\ stored acts = [])
        \/ (df <> []
            /\ exists before,
                 acts
                 = before
                   ++ [Stored
                         (lit "scholar_citations_" ++ scholar_id ++ lit "_"
                          ++ timestamp ++ lit ".csv") df]
                 /\ stored before = [])).
Proof.
  intros timestamp scholar_id min_year. unfold get_all_citations_run.
  pose proof (fetch_stores_nothing w (profile_url scholar_id)
                {| requests_made := 0; pauses_made := 0 |}) as Hst.
  destruct (fetch w (profile_url scholar_id)
              {| requests_made := 0; pauses_made := 0 |})
    as [[r acts] st1].
  cbn [fst snd] in Hst.
  assert (Hempty : StronglySorted in_order []
                   /\ (([] = [] :> list CitationRecord /\ stored acts = [])
                       \/ (([] : list CitationRecord) <> []
                           /\ exists before,
                                acts
                                = before
                                  ++ [Stored
                                        (lit "scholar_citations_"
                                         ++ scholar_id ++ lit "_"
                                         ++ timestamp ++ lit ".csv") []]
                                /\ stored before = []))).
  { split; [constructor | left; split; [reflexivity | exact Hst]]. }
  destruct r as [[| ch content] |]; [exact Hempty | | exact Hempty].
  pose proof (visit_rows_spec w lib min_year (soup_rows lib (ch :: content))
                st1) as H.
  destruct (visit_rows w lib min_year (soup_rows lib (ch :: content)) st1)
    as [[all_citations acts2] st2].
  destruct H as [_ [Hst2 _]].
  destruct all_citations as [| c rest].
  - split; [constructor | left; split; [reflexivity |]].
    rewrite stored_app, Hst, Hst2. reflexivity.
  - split; [apply ScholarFacts.sort_values_sorted | right]. split.
    + intros Hnil.
      pose proof (ScholarFacts.sort_values_permutation (c :: rest)) as Hp.
      rewrite Hnil in Hp. apply Permutation_sym in Hp.
      apply Permutation_nil in Hp. discriminate Hp.
    + exists (acts ++ acts2). split; [rewrite app_assoc; reflexivity |].
      rewrite stored_app, Hst, Hst2. reflexivity.
Qed.

(** X12: when the random samples lie in [0, 1], every wait of a run is a
    delay between 2 and 4 seconds or a back-off of 60, 120 or 180
    seconds. *)
Theorem run_waits_are_jitter_or_backoff :
  forall (timestamp scholar_id : pystr) (min_year : option Z),
    samples_in_unit_interval w ->
    Forall allowed_wait
      (waited
         (snd (get_all_citations_run w lib timestamp scholar_id min_year))).
Proof.
  intros timestamp scholar_id min_year Hw. unfold get_all_citations_run.
  pose proof (@fetch_waits w (profile_url scholar_id)
                {| requests_made := 0; pauses_made := 0 |} Hw) as Hwt.
  destruct (fetch w (profile_url scholar_id)
              {| requests_made := 0; pauses_made := 0 |})
    as [[r acts] st1].
  cbn [fst snd] in Hwt.
  destruct r as [[| ch content] |]; [exact Hwt | | exact Hwt].
  pose proof (visit_rows_spec w lib min_year (soup_rows lib (ch :: content))
                st1) as H.
  destruct (visit_rows w lib min_year (soup_rows lib (ch :: content)) st1)
    as [[all_citations acts2] st2].
  destruct H as [_ [_ Hwt2]]. specialize (Hwt2 Hw).
  destruct all_citations as [| c rest]; cbn [snd];
    rewrite ?waited_app; repeat (apply Forall_app; split); auto.
Qed.

(** X13: every record of the table returned was extracted for a row of the
    profile that has a cited-by link, carries the title of that row
    ("Unknown Title" for a row without a title link) as its cited paper,
    and, with a minimum year other than 0, has a numeric year that is at
    least the minimum. *)
Theorem records_come_from_linked_rows :
  forall (timestamp scholar_id : pystr) (min_year : option Z)
         (c : CitationRecord),
    In c (fst (get_all_citations_run w lib timestamp scholar_id min_year)) ->
    exists content row,
      fst (fst (fetch w (profile_url scholar_id)
                  {| requests_made := 0; pauses_made := 0 |}))
      = Some content
      /\ In row (soup_rows lib content)
      /\ from_row lib min_year row c.
Proof.
  intros timestamp scholar_id min_year c. unfold get_all_citations_run.
  destruct (fetch w (profile_url scholar_id)
              {| requests_made := 0; pauses_made := 0 |})
    as [[r acts] st1].
  cbn [fst snd].
  destruct r as [[| ch content] |]; [intros [] | | intros []].
  pose proof (visit_rows_spec w lib min_year (soup_rows lib (ch :: content))
                st1) as H.
  destruct (visit_rows w lib min_year (soup_rows lib (ch :: content)) st1)
    as [[all_citations acts2] st2].
  destruct H as [Hall _].
  destruct all_citations as [| c0 rest]; cbn [fst]; [intros [] |].
  intros Hin. apply sort_values_in in Hin.
  rewrite Forall_forall in Hall.
  destruct (Hall c Hin) as [row [Hrow Hfrom]].
  exists (ch :: content), row. auto.
Qed.

End WholeRun.

(** X10 on a web where nothing can be reached. *)
Lemma unreachable_profile_gives_empty_table_witness :
  fst (get_all_citations_run (U := sample_db) dead_web small_library
         (lit "20240101_000000") (lit "ID") None) = []
  /\ requested
       (snd (get_all_citations_run (U := sample_db) dead_web small_library
               (lit "20240101_000000") (lit "ID") None))
     = repeat (profile_url (lit "ID")) 3
  /\ stored
       (snd (get_all_citations_run (U := sample_db) dead_web small_library
               (lit "20240101_000000") (lit "ID") None))
     = [].
Proof.
  apply (unreachable_profile_gives_empty_table (U := sample_db)).
  intros k _ [text H]. discriminate H.
Defined.

(** X12 on the small web. *)
Lemma run_waits_are_jitter_or_backoff_witness :
  Forall allowed_wait
    (waited
       (snd (get_all_citations_run (U := sample_db) small_web small_library
               (lit "20240101_000000") (lit "ID") None))).
Proof.
  apply (run_waits_are_jitter_or_backoff (U := sample_db)).
  intros k. repeat split; discriminate.
Defined.

(** X13 on the small web: the record of page 0 is tagged with the title of
    the first row. *)
Lemma records_come_from_linked_rows_witness :
  exists content row,
    fst (fst (fetch small_web (profile_url (lit "ID"))
                {| requests_made := 0; pauses_made := 0 |}))
    = Some content
    /\ In row (soup_rows small_library content)
    /\ from_row (U := sample_db) small_library None row
         {| paper := {| title := lit "A"; authors := lit "X";
                        venue := lit "V, 2020"; year := lit "2020";
                        link := []; snippet := [] |};
            cited_paper := lit "Mine" |}.
Proof.
  apply (records_come_from_linked_rows (U := sample_db) small_web
           small_library (lit "20240101_000000") (lit "ID") None).
  vm_compute. left. reflexivity.
Defined.

(** X9 on the feed of the small web: two pages are served, the third is
    not. *)
Lemma pages_are_requested_in_order_witness :
  Forall (fun c => cited_paper c = lit "Mine")
    (fst (fst (get_citations_for_paper (U := sample_db) small_web
                 small_library small_feed (lit "Mine")
                 {| requests_made := 1; pauses_made := 0 |}))).
Proof.
  pose proof (pages_are_requested_in_order (U := sample_db) small_web
                small_library small_feed (lit "Mine")
                {| requests_made := 1; pauses_made := 0 |}) as H.
  destruct (get_citations_for_paper (U := sample_db) small_web
              small_library small_feed (lit "Mine")
              {| requests_made := 1; pauses_made := 0 |})
    as [[citations acts] st].
  exact (proj2 (proj2 H)).
Defined.

End CollectorFacts.

(** * Further properties of the affiliation pass *)

Module ResolverFacts.
Import PyStr Affiliations Resolver.

(** ** Effects of composed computations *)

Lemma every_ret {A} P (a : A) : every P (ret a).
Proof. intros s. constructor. Qed.

Lemma every_raise {A} P : every P (@raise A).
Proof. intros s. constructor. Qed.

Lemma every_emit P e : P e -> every P (emit e).
Proof. intros He s. repeat constructor. exact He. Qed.

Lemma every_append P r : P (Appended r) -> every P (append r).
Proof. intros He s. repeat constructor. exact He. Qed.

Lemma every_save P : (forall rows, P (Saved rows)) -> every P save.
Proof. intros He s. repeat constructor. apply He. Qed.

Lemma every_bind {A B} P (m : M A) (f : A -> M B) :
  every P m -> (forall a, every P (f a)) -> every P (bind m f).
Proof.
  intros Hm Hf s. unfold bind. specialize (Hm s).
  destruct (m s) as [[s1 l1] [a |]]; [| exact Hm].
  specialize (Hf a s1). destruct (f a s1) as [[s2 l2] r].
  apply Forall_app. split; assumption.
Qed.

Lemma every_catch {A} P (m h : M A) :
  every P m -> every P h -> every P (catch m h).
Proof.
  intros Hm Hh s. unfold catch. specialize (Hm s).
  destruct (m s) as [[s1 l1] [a |]]; [exact Hm |].
  specialize (Hh s1). destruct (h s1) as [[s2 l2] r].
  apply Forall_app. split; assumption.
Qed.

Lemma every_for_each {A} P (l : list A) (body : A -> M unit) :
  (forall x, every P (body x)) -> every P (for_each l body).
Proof.
  intros Hbody. induction l as [| x rest IH]; simpl.
  - apply every_ret.
  - apply every_bind; [apply Hbody | intros _; exact IH].
Qed.

Lemma every_weaken {A} (P Q : event -> Prop) (m : M A) :
  (forall e, P e -> Q e) -> every P m -> every Q m.
Proof. intros HPQ Hm s. eapply Forall_impl; [exact HPQ | apply Hm]. Qed.

(** Each element of the list with its own property. *)
Lemma every_for_each_in {A} (P : A -> event -> Prop) (l : list A)
    (body : A -> M unit) :
  (forall x, every (P x) (body x)) ->
  every (fun e => exists x, In x l /\ P x e) (for_each l body).
Proof.
  intros Hbody. induction l as [| x rest IH]; simpl.
  - apply every_ret.
  - apply every_bind.
    + eapply every_weaken; [| apply (Hbody x)].
      intros e He. exists x. auto.
    + intros _. eapply every_weaken; [| exact IH].
      intros e [y [Hy He]]. exists y. auto.
Qed.

Lemma in_appended r log : In r (appended log) <-> In (Appended r) log.
Proof.
  unfold appended. rewrite in_flat_map. split.
  - intros [e [He Hr]]. destruct e as [src key | r' | rows];
      simpl in Hr; try contradiction.
    destruct Hr as [<- | []]. exact He.
  - intros H. exists (Appended r). split; [exact H | left; reflexivity].
Qed.

Lemma saves_app l1 l2 : saves (l1 ++ l2) = saves l1 ++ saves l2.
Proof. unfold saves. apply flat_map_app. Qed.

Lemma no_saves log : Forall not_a_save log -> saves log = [].
Proof.
  induction 1 as [| e rest He _ IH]; [reflexivity |].
  destruct e; simpl in *; [exact IH | exact IH | contradiction].
Qed.

Section Pass.
Context {U : UnicodeDB}.
Variable env : services.

(** ** The effects of the parts of a pass *)

Lemma search_crossref_every P title :
  P (Query Crossref (clean_title title)) ->
  every P (search_crossref env title).
Proof.
  intros HP. unfold search_crossref.
  apply every_bind; [apply every_emit; exact HP | intros _].
  destruct (crossref env (clean_title title)) as [| [| item items] |];
    first [apply every_ret | apply every_raise].
Qed.

Lemma search_openalex_every P doi :
  (present doi = true -> P (Query OpenAlex (default [] doi))) ->
  every P (search_openalex env doi).
Proof.
  intros HP. unfold search_openalex.
  destruct (present doi); simpl negb; cbv iota; [| apply every_ret].
  apply every_bind; [apply every_emit; auto | intros _].
  destruct (openalex env (default [] doi));
    first [apply every_ret | apply every_raise].
Qed.

Lemma search_semantic_scholar_every P doi :
  (present doi = true -> P (Query SemanticScholar (default [] doi))) ->
  every P (search_semantic_scholar env doi).
Proof.
  intros HP. unfold search_semantic_scholar.
  destruct (present doi); simpl negb; cbv iota; [| apply every_ret].
  apply every_bind; [apply every_emit; auto | intros _].
  destruct (semantic_scholar env (default [] doi));
    first [apply every_ret | apply every_raise].
Qed.

Lemma process_author_every P title doi a :
  (present doi = true -> P (Query OpenAlex (default [] doi))) ->
  (present doi = true -> P (Query SemanticScholar (default [] doi))) ->
  (forall found, P (Appended (result_row title doi a found))) ->
  every P (process_author env title doi a).
Proof.
  intros Hoa Hs2 Hrow. unfold process_author, resolve_affiliations.
  apply every_bind; [| intros found; apply every_append; apply Hrow].
  apply every_bind.
  - destruct (is_empty (embedded_affiliations a) && present doi);
      [| apply every_ret].
    apply every_bind; [apply search_openalex_every; exact Hoa |].
    intros found. apply every_ret.
  - intros found. apply every_bind; [| intros found2; apply every_ret].
    destruct (is_empty found && present doi); [| apply every_ret].
    apply every_bind; [apply search_semantic_scholar_every; exact Hs2 |].
    intros found2. apply every_ret.
Qed.

(** The part of the body for one title that comes before the save. *)
Lemma before_save_every P title paper_data :
  (forall doi, present doi = true ->
     P (Query OpenAlex (default [] doi))
     /\ P (Query SemanticScholar (default [] doi))) ->
  (forall doi a found, P (Appended (result_row title doi a found))) ->
  every P
    (match paper_data with
     | Some item =>
         for_each (default [] (author item))
           (process_author env title (DOI item))
     | None => ret tt
     end).
Proof.
  intros Hq Hrow. destruct paper_data as [item |]; [| apply every_ret].
  apply every_for_each. intros a.
  apply process_author_every; [apply Hq | apply Hq | apply Hrow].
Qed.

Lemma process_paper_every P title :
  P (Query Crossref (clean_title title)) ->
  (forall doi, present doi = true ->
     P (Query OpenAlex (default [] doi))
     /\ P (Query SemanticScholar (default [] doi))) ->
  (forall doi a found, P (Appended (result_row title doi a found))) ->
  (forall rows, P (Saved rows)) ->
  every P (process_paper env title).
Proof.
  intros Hc Hq Hrow Hsave. unfold process_paper.
  apply every_bind; [apply search_crossref_every; exact Hc |].
  intros paper_data.
  apply every_bind; [apply before_save_every; assumption |].
  intros _. apply every_save. exact Hsave.
Qed.

Lemma present_not_empty doi : present doi = true -> default [] doi <> [].
Proof. destruct doi as [[| c d] |]; simpl; congruence. Qed.

Lemma pass_log titles start_index existing :
  snd (process_papers env titles start_index existing)
  = snd (fst (for_each (skipn start_index titles)
                (fun title => catch (process_paper env title) (ret tt))
                (default [] existing))).
Proof.
  unfold process_papers.
  destruct (for_each (skipn start_index titles)
              (fun title => catch (process_paper env title) (ret tt))
              (default [] existing)) as [[final log] r].
  reflexivity.
Qed.

(** X14: a pass asks Crossref only for the cleaned titles of the titles at
    or after the start index, and every row it appends carries one of
    those titles: the titles before the start index are not touched. *)
Theorem pass_touches_only_titles_from_start_index :
  forall (titles : list pystr) (start_index : nat)
         (existing : option (list AffiliationRecord)),
    let log := snd (process_papers env titles start_index existing) in
    (forall key, In (Query Crossref key) log ->
       exists title,
         In title (skipn start_index titles) /\ key = clean_title title)
    /\ (forall r, In r (appended log) ->
          In (paper_title r) (skipn start_index titles)).
Proof.
  intros titles start_index existing log.
  assert (H : Forall
                (fun e => exists title,
                   In title (skipn start_index titles) /\ belongs_to title e)
                log).
  { subst log. rewrite pass_log.
    apply (every_for_each_in belongs_to). intros title.
    apply every_catch; [| apply every_ret].
    apply process_paper_every; simpl; auto. }
  rewrite Forall_forall in H. split.
  - intros key Hin. apply (H _ Hin).
  - intros r Hin. apply in_appended in Hin.
    destruct (H _ Hin) as [title [Ht Hb]]. simpl in Hb. congruence.
Qed.

(** X15: OpenAlex and Semantic Scholar are only ever asked about a
    non-empty DOI, and the DOI field of every row appended is non-empty
    (the DOI, or "Not found"). *)
Theorem lookups_and_rows_have_a_doi :
  forall (titles : list pystr) (start_index : nat)
         (existing : option (list AffiliationRecord)),
    let log := snd (process_papers env titles start_index existing) in
    (forall key, In (Query OpenAlex key) log
                 \/ In (Query SemanticScholar key) log -> key <> [])
    /\ Forall (fun r => doi r <> []) (appended log).
Proof.
  intros titles start_index existing log.
  assert (H : Forall has_doi log).
  { subst log. rewrite pass_log.
    apply every_for_each. intros title.
    apply every_catch; [| apply every_ret].
    apply process_paper_every; simpl; auto.
    - intros d Hd. split; apply present_not_empty; exact Hd.
    - intros d a found. destruct (present d) eqn:Hd;
        [apply present_not_empty; exact Hd | discriminate]. }
  rewrite Forall_forall in H. split.
  - intros key [Hin | Hin]; apply (H _ Hin).
  - apply Forall_forall. intros r Hin. apply in_appended in Hin.
    apply (H _ Hin).
Qed.

(** X16: a paper whose processing raises writes no checkpoint: the rows
    appended for its earlier authors are in [results] only. *)
Theorem failed_paper_writes_no_checkpoint :
  forall (title : pystr) (s s' : list AffiliationRecord) (log : list event),
    process_paper env title s = (s', log, Raised) ->
    saves log = [] /\ s' = s ++ appended log.
Proof.
  intros title s s' log Hrun. split.
  - apply no_saves. revert Hrun. unfold process_paper, bind.
    pose proof (@search_crossref_every not_a_save title I s) as H1.
    destruct (search_crossref env title s) as [[s1 l1] [paper_data |]];
      cbn [fst snd] in H1.
    + pose proof (@before_save_every not_a_save title paper_data
                    (fun _ _ => conj I I) (fun _ _ _ => I) s1) as H2.
      destruct (match paper_data with
                | Some item =>
                    for_each (default [] (author item))
                      (process_author env title (DOI item))
                | None => ret tt
                end s1) as [[s2 l2] [u |]]; cbn [fst snd] in H2.
      * discriminate.
      * intros Heq. injection Heq as _ <-.
        apply Forall_app. split; assumption.
    + intros Heq. injection Heq as _ <-. exact H1.
  - pose proof (AffiliationsFacts.process_paper_tracks env title s) as Ht.
    rewrite Hrun in Ht. apply Ht.
Qed.

(** ** Papers without metadata *)

Lemma process_paper_nothing title s :
  nothing_found env title ->
  process_paper env title s
  = (s, [Query Crossref (clean_title title); Saved s], Ok tt).
Proof.
  intros Hnone. unfold process_paper, search_crossref, bind, emit, save.
  destruct Hnone as [-> | ->]; reflexivity.
Qed.

(** X17: when Crossref has nothing for any of the titles processed (the
    request fails or no item comes back), the pass adds no row, and still
    writes the checkpoint once per title, each time with the rows it
    loaded. *)
Theorem pass_without_metadata_rewrites_loaded_rows :
  forall (titles : list pystr) (start_index : nat)
         (existing : option (list AffiliationRecord)),
    (forall title, In title (skipn start_index titles) ->
       nothing_found env title) ->
    process_papers env titles start_index existing
    = (default [] existing,
       flat_map
         (fun title =>
            [Query Crossref (clean_title title);
             Saved (default [] existing)])
         (skipn start_index titles)).
Proof.
  intros titles start_index existing Hnone. unfold process_papers.
  assert (H : forall l s,
            (forall title, In title l -> nothing_found env title) ->
            for_each l
              (fun title => catch (process_paper env title) (ret tt)) s
            = (s,
               flat_map
                 (fun title => [Query Crossref (clean_title title); Saved s])
                 l,
               Ok tt)).
  { induction l as [| title rest IH]; intros s Hl; [reflexivity |].
    cbn [for_each]. unfold bind at 1. unfold catch at 1.
    rewrite process_paper_nothing by (apply Hl; left; reflexivity).
    rewrite IH by (intros t Ht; apply Hl; right; exact Ht).
    reflexivity. }
  rewrite (H _ _ Hnone). reflexivity.
Qed.

(** ** One row per author *)

Lemma resolve_affiliations_every P doi a :
  (present doi = true -> P (Query OpenAlex (default [] doi))) ->
  (present doi = true -> P (Query SemanticScholar (default [] doi))) ->
  every P (resolve_affiliations env doi a).
Proof.
  intros Hoa Hs2. unfold resolve_affiliations.
  apply every_bind.
  - destruct (is_empty (embedded_affiliations a) && present doi);
      [| apply every_ret].
    apply every_bind; [apply search_openalex_every; exact Hoa |].
    intros found. apply every_ret.
  - intros found. apply every_bind; [| intros found2; apply every_ret].
    destruct (is_empty found && present doi); [| apply every_ret].
    apply every_bind; [apply search_semantic_scholar_every; exact Hs2 |].
    intros found2. apply every_ret.
Qed.

Lemma no_rows log : Forall not_a_row log -> appended log = [].
Proof.
  induction 1 as [| e rest He _ IH]; [reflexivity |].
  destruct e; simpl in *; [exact IH | contradiction | exact IH].
Qed.

Lemma process_author_row title doi a s s' log :
  process_author env title doi a s = (s', log, Ok tt) ->
  exists found, appended log = [result_row title doi a found].
Proof.
  unfold process_author, bind.
  pose proof (@resolve_affiliations_every not_a_row doi a
                (fun _ => I) (fun _ => I) s) as H.
  destruct (resolve_affiliations env doi a s) as [[s1 l1] [found |]];
    cbn [fst snd] in H; [| discriminate].
  unfold append. intros Heq. injection Heq as _ <-.
  exists found. rewrite AffiliationsFacts.appended_app, (no_rows H).
  reflexivity.
Qed.

Lemma authors_rows title doi authors s s' log :
  for_each authors (process_author env title doi) s = (s', log, Ok tt) ->
  map key_of (appended log)
  = map (fun a => (title, full_name a, doi_field doi)) authors.
Proof.
  revert s s' log. induction authors as [| a rest IH]; intros s s' log.
  - simpl. unfold ret. intros Heq. injection Heq as _ <-. reflexivity.
  - cbn [for_each]. unfold bind at 1.
    destruct (process_author env title doi a s) as [[s1 l1] [u |]] eqn:Ha;
      [| discriminate].
    destruct u. destruct (process_author_row _ _ _ _ Ha) as [found Hrow].
    destruct (for_each rest (process_author env title doi) s1)
      as [[s2 l2] r] eqn:Hrest.
    intros Heq. injection Heq as _ <- ->.
    rewrite AffiliationsFacts.appended_app, map_app, Hrow,
      (IH _ _ _ Hrest).
    reflexivity.
Qed.

(** X18: a paper that is processed without error appends exactly one row
    for each author of the first item Crossref returns, in the order of the
    authors, with the title as given, the author's full name and the DOI of
    the item ("Not found" without one). *)
Theorem one_row_per_author :
  forall (title : pystr) (item : crossref_item)
         (others : list crossref_item)
         (s s' : list AffiliationRecord) (log : list event),
    crossref env (clean_title title) = Body (item :: others) ->
    process_paper env title s = (s', log, Ok tt) ->
    map key_of (appended log)
    = map (fun a => (title, full_name a, doi_field (DOI item)))
        (default [] (author item)).
Proof.
  intros title item others s s' log Hc.
  unfold process_paper, search_crossref, bind at 1 2. unfold emit at 1.
  rewrite Hc. unfold ret at 1. unfold bind.
  destruct (for_each (default [] (author item))
              (process_author env title (DOI item)) s)
    as [[s1 l1] [u |]] eqn:Hauthors; [| discriminate].
  destruct u. unfold save. cbv beta iota. intros Heq.
  injection Heq as _ <-.
  change (appended (Query Crossref (clean_title title) :: l1 ++ [Saved s1]))
    with (appended (l1 ++ [Saved s1])).
  rewrite AffiliationsFacts.appended_app. cbn [appended flat_map app].
  rewrite app_nil_r. apply (authors_rows _ _ _ _ Hauthors).
Qed.

(** ** Resuming *)

Lemma for_each_app {A} (l1 l2 : list A) (body : A -> M unit) s :
  for_each (l1 ++ l2) body s
  = bind (for_each l1 body) (fun _ => for_each l2 body) s.
Proof.
  revert s. induction l1 as [| x rest IH]; intros s.
  - simpl. unfold bind, ret.
    destruct (for_each l2 body s) as [[s2 l] r]. reflexivity.
  - cbn [app for_each]. unfold bind.
    destruct (body x s) as [[s1 lx] [u |]]; [| reflexivity].
    rewrite IH. unfold bind.
    destruct (for_each rest body s1) as [[s2 lr] [u2 |]].
    + destruct (for_each l2 body s2) as [[s3 l3] r3].
      rewrite app_assoc. reflexivity.
    + reflexivity.
Qed.

Lemma pass_never_raises titles s :
  exists s' log,
    for_each titles
      (fun title => catch (process_paper env title) (ret tt)) s
    = (s', log, Ok tt).
Proof.
  revert s. induction titles as [| title rest IH]; intros s.
  - exists s, []. reflexivity.
  - cbn [for_each]. unfold bind at 1. unfold catch at 1.
    destruct (process_paper env title s) as [[s1 l1] [u |]].
    + destruct (IH s1) as [s2 [l2 ->]]. eexists. eexists. reflexivity.
    + change (@ret unit tt s1) with (s1, @nil event, @Ok unit tt).
      cbv beta iota. destruct (IH s1) as [s2 [l2 ->]].
      eexists. eexists. reflexivity.
Qed.

(** X19: a pass can be split at any index. When the rows that a pass from
    index k loads are the results of a pass over the first k titles, the
    pass from index k ends with the rows of one pass from index 0, and its
    requests and checkpoint writes are those that the pass from index 0
    makes after the ones for the first k titles. The rows loaded are
    taken as [pd.read_csv] gives them; whether a checkpoint reads back as
    the rows it was written from is no part of the statement. *)
Theorem pass_from_index_continues_earlier_pass :
  forall (titles : list pystr) (k : nat)
         (existing : option (list AffiliationRecord))
         (loaded : list AffiliationRecord),
    loaded = fst (process_papers env (firstn k titles) 0 existing) ->
    fst (process_papers env titles k (Some loaded))
    = fst (process_papers env titles 0 existing)
    /\ snd (process_papers env titles 0 existing)
       = snd (process_papers env (firstn k titles) 0 existing)
         ++ snd (process_papers env titles k (Some loaded)).
Proof.
  intros titles k existing loaded ->.
  unfold process_papers. cbn [default skipn].
  set (body := fun title => catch (process_paper env title) (ret tt)).
  assert (Hsplit :
            for_each titles body (default [] existing)
            = bind (for_each (firstn k titles) body)
                (fun _ => for_each (skipn k titles) body)
                (default [] existing)).
  { rewrite <- for_each_app, firstn_skipn. reflexivity. }
  rewrite Hsplit. unfold bind.
  destruct (pass_never_raises (firstn k titles) (default [] existing))
    as [s1 [l1 Hfirst]].
  fold body in Hfirst. rewrite Hfirst. cbn [fst snd].
  destruct (for_each (skipn k titles) body s1) as [[s2 l2] r2].
  split; reflexivity.
Qed.

(** ** The lookups *)

Lemma Forall_flat_map {A B} (P : B -> Prop) (f : A -> list B) l :
  (forall x, Forall P (f x)) -> Forall P (flat_map f l).
Proof.
  intros Hf. induction l as [| x rest IH]; simpl; [constructor |].
  apply Forall_app. split; [apply Hf | exact IH].
Qed.

Lemma truthy_not_empty s : truthy s = true -> s <> [].
Proof. destruct s; simpl; congruence. Qed.

Lemma not_empty_list {A} (l : list A) : is_empty l = false -> l <> [].
Proof. destruct l; simpl; congruence. Qed.

Lemma authorship_pairs_present a :
  Forall both_present (authorship_affiliations a).
Proof.
  unfold authorship_affiliations. apply Forall_flat_map. intros inst.
  match goal with
  | |- Forall _ (if ?c then _ else _) => destruct c eqn:Hc
  end; [| constructor].
  apply andb_true_iff in Hc. destruct Hc as [Hn Hf].
  constructor; [| constructor].
  split; apply truthy_not_empty; assumption.
Qed.

Lemma s2_pairs_present a : Forall both_present (s2_author_affiliations a).
Proof.
  unfold s2_author_affiliations. apply Forall_flat_map. intros aff.
  destruct (truthy (default [] (s2_name a)) && truthy aff) eqn:Hc;
    [| constructor].
  apply andb_true_iff in Hc. destruct Hc as [Hn Hf].
  constructor; [| constructor].
  split; apply truthy_not_empty; assumption.
Qed.

(** X20: the OpenAlex lookup makes no request without a DOI and returns
    nothing then; it returns nothing, and does not raise, when the request
    fails; and a list it returns is never empty and holds only pairs of a
    non-empty author name and a non-empty affiliation. *)
Theorem openalex_lookup_returns_complete_pairs :
  forall (doi : option pystr) (s : list AffiliationRecord),
    (present doi = false -> search_openalex env doi s = (s, [], Ok None))
    /\ (openalex env (default [] doi) = RequestFailed ->
        snd (search_openalex env doi s) = Ok None)
    /\ (forall found,
          snd (search_openalex env doi s) = Ok (Some found) ->
          found <> [] /\ Forall both_present found).
Proof.
  intros doi s. unfold search_openalex, bind, emit. split; [| split].
  - intros ->. reflexivity.
  - intros ->. destruct (negb (present doi)); reflexivity.
  - intros found. destruct (negb (present doi)); [discriminate |].
    destruct (openalex env (default [] doi)) as [| data |]; simpl;
      try discriminate.
    destruct (is_empty
                (flat_map authorship_affiliations (default [] data)))
      eqn:He; simpl; [discriminate |].
    intros H. injection H as <-.
    split; [apply not_empty_list; exact He |].
    apply Forall_flat_map. apply authorship_pairs_present.
Qed.

(** X21: the Semantic Scholar lookup makes no request without a DOI and
    returns nothing then; it returns nothing, and does not raise, when the
    request fails; and a list it returns is never empty and holds only
    pairs of a non-empty author name and a non-empty affiliation. *)
Theorem semantic_scholar_lookup_returns_complete_pairs :
  forall (doi : option pystr) (s : list AffiliationRecord),
    (present doi = false ->
     search_semantic_scholar env doi s = (s, [], Ok None))
    /\ (semantic_scholar env (default [] doi) = RequestFailed ->
        snd (search_semantic_scholar env doi s) = Ok None)
    /\ (forall found,
          snd (search_semantic_scholar env doi s) = Ok (Some found) ->
          found <> [] /\ Forall both_present found).
Proof.
  intros doi s. unfold search_semantic_scholar, bind, emit.
  split; [| split].
  - intros ->. reflexivity.
  - intros ->. destruct (negb (present doi)); reflexivity.
  - intros found. destruct (negb (present doi)); [discriminate |].
    destruct (semantic_scholar env (default [] doi)) as [| data |]; simpl;
      try discriminate.
    destruct (is_empty (flat_map s2_author_affiliations (default [] data)))
      eqn:He; simpl; [discriminate |].
    intros H. injection H as <-.
    split; [apply not_empty_list; exact He |].
    apply Forall_flat_map. apply s2_pairs_present.
Qed.

(** ** Matching names *)

Lemma is_prefix_self needle post : is_prefix needle (needle ++ post) = true.
Proof.
  induction needle as [| c rest IH]; [reflexivity |].
  simpl. rewrite N.eqb_refl. exact IH.
Qed.

Lemma str_in_unfold needle hay :
  str_in needle hay
  = (is_prefix needle hay
     || match hay with
        | [] => false
        | _ :: t => str_in needle t
        end).
Proof. destruct hay; reflexivity. Qed.

Lemma str_in_occurs needle hay :
  str_in needle hay = true <-> occurs needle hay.
Proof.
  split.
  - induction hay as [| c t IH]; rewrite str_in_unfold; intros H;
      apply orb_true_iff in H.
    + destruct H as [H | H]; [| discriminate].
      exists [], (skipn (length needle) []).
      apply (ExtractorFacts.is_prefix_app needle [] H).
    + destruct H as [H | H].
      * exists [], (skipn (length needle) (c :: t)).
        apply (ExtractorFacts.is_prefix_app needle (c :: t) H).
      * destruct (IH H) as [pre [post ->]]. exists (c :: pre), post.
        reflexivity.
  - intros [pre [post ->]]. induction pre as [| c pre IH].
    + cbn [app]. rewrite str_in_unfold, is_prefix_self. reflexivity.
    + cbn [app]. rewrite str_in_unfold. cbv iota. rewrite IH.
      apply orb_true_r.
Qed.

(** X22: two names match exactly when, lower-cased, one of them occurs
    inside the other; matching does not depend on the order of the two
    names, and every name matches itself. *)
Theorem names_match_by_containment_either_way :
  forall name other : pystr,
    (name_matches name other = true <->
     occurs (lower name) (lower other) \/ occurs (lower other) (lower name))
    /\ name_matches name other = name_matches other name
    /\ name_matches name name = true.
Proof.
  intros name other. unfold name_matches. split; [| split].
  - rewrite orb_true_iff, !str_in_occurs. reflexivity.
  - apply orb_comm.
  - apply orb_true_iff. left. apply str_in_occurs.
    exists [], []. rewrite app_nil_r. reflexivity.
Qed.

End Pass.

(** ** The title sent to Crossref *)

Lemma lstrip_starts_clean s : starts_clean (lstrip s).
Proof.
  induction s as [| c t IH]; simpl; [exact I |].
  destruct (is_space c) eqn:Hc; [exact IH | exact Hc].
Qed.

Lemma lstrip_shorter s : length (lstrip s) <= length s.
Proof.
  induction s as [| c t IH]; simpl; [lia |].
  destruct (is_space c); simpl; lia.
Qed.

Lemma lstrip_clean s : starts_clean s -> lstrip s = s.
Proof.
  destruct s as [| c t]; simpl; [reflexivity |]. intros ->. reflexivity.
Qed.

Lemma lstrip_keeps_last l c :
  is_space c = false -> lstrip (l ++ [c]) = lstrip l ++ [c].
Proof.
  intros Hc. induction l as [| x rest IH]; simpl.
  - rewrite Hc. reflexivity.
  - destruct (is_space x); [exact IH | reflexivity].
Qed.

Lemma rstrip_keeps_head c t :
  is_space c = false -> rstrip (c :: t) = c :: rstrip t.
Proof.
  intros Hc. unfold rstrip. cbn [rev].
  rewrite (@lstrip_keeps_last (rev t) c Hc), rev_app_distr. reflexivity.
Qed.

Lemma strip_trimmed s : trimmed (strip s).
Proof.
  unfold strip, trimmed. split.
  - pose proof (lstrip_starts_clean s) as H.
    destruct (lstrip s) as [| c t]; [exact I |].
    simpl in H. rewrite (@rstrip_keeps_head c t H). exact H.
  - unfold rstrip. rewrite rev_involutive. apply lstrip_starts_clean.
Qed.

Lemma strip_shorter s : length (strip s) <= length s.
Proof.
  unfold strip, rstrip. rewrite length_rev.
  pose proof (lstrip_shorter (rev (lstrip s))) as H1.
  pose proof (lstrip_shorter s) as H2.
  rewrite length_rev in H1. lia.
Qed.

Lemma strip_trimmed_id s : trimmed s -> strip s = s.
Proof.
  intros [Hl Hr]. unfold strip, rstrip.
  rewrite (lstrip_clean s Hl), (lstrip_clean (rev s) Hr).
  apply rev_involutive.
Qed.

Lemma remove_from_shorter pat skip s :
  length (remove_from pat skip s) <= length s.
Proof.
  revert skip. induction s as [| c t IH]; intros skip; simpl; [lia |].
  destruct skip as [| k].
  - destruct (is_prefix pat (c :: t)).
    + specialize (IH (length pat - 1)). lia.
    + simpl. specialize (IH 0). lia.
  - specialize (IH k). lia.
Qed.

Lemma remove_all_absent pat s : str_in pat s = false -> remove_all pat s = s.
Proof.
  unfold remove_all. induction s as [| c t IH]; [reflexivity |].
  rewrite str_in_unfold. intros H. apply orb_false_iff in H.
  destruct H as [Hp Ht]. cbn [remove_from]. rewrite Hp.
  f_equal. apply IH. exact Ht.
Qed.

(** X23: the title sent to Crossref has no white space at either end and
    is never longer than the title given; a title that has no white space
    at either end and does not contain "[HTML]" is sent as it is. *)
Theorem cleaned_title_is_trimmed :
  forall title : pystr,
    trimmed (clean_title title)
    /\ length (clean_title title) <= length title
    /\ (trimmed title -> str_in (lit "[HTML]") title = false ->
        clean_title title = title).
Proof.
  intros title. unfold clean_title. split; [| split].
  - apply strip_trimmed.
  - pose proof (strip_shorter (remove_all (lit "[HTML]") title)) as H1.
    pose proof (remove_from_shorter (lit "[HTML]") 0 title) as H2.
    unfold remove_all in *. lia.
  - intros Ht Habsent. rewrite (remove_all_absent _ _ Habsent).
    apply strip_trimmed_id. exact Ht.
Qed.

(** ** The properties on concrete passes *)

(** X14 on a pass from index 1 over two titles. *)
Lemma pass_touches_only_titles_from_start_index_witness :
  In (paper_title ada_row) (skipn 1 [lit "Old"; lit "Notes"]).
Proof.
  destruct (pass_touches_only_titles_from_start_index (U := sample_db)
              one_author [lit "Old"; lit "Notes"] 1 None) as [_ H].
  apply H. vm_compute. left. reflexivity.
Defined.

(** X15 on a pass in which OpenAlex is asked. *)
Lemma lookups_and_rows_have_a_doi_witness : lit "10.1000/notes" <> [].
Proof.
  destruct (lookups_and_rows_have_a_doi (U := sample_db) two_sources
              [lit "Notes"] 0 None) as [H _].
  apply H. left. vm_compute. right. right. left. reflexivity.
Defined.

(** X16 on the paper whose second author makes the lookup raise. *)
Lemma failed_paper_writes_no_checkpoint_witness :
  saves [Query Crossref (lit "Notes"); Appended ada_row;
         Query OpenAlex (lit "10.1000/notes")] = []
  /\ [ada_row]
     = [] ++ appended [Query Crossref (lit "Notes"); Appended ada_row;
                       Query OpenAlex (lit "10.1000/notes")].
Proof.
  apply (failed_paper_writes_no_checkpoint (U := sample_db)
           second_author_fails (lit "Notes") []).
  reflexivity.
Defined.

(** X17 on two titles for which every request fails. *)
Lemma pass_without_metadata_rewrites_loaded_rows_witness :
  process_papers (U := sample_db) openalex_knows [lit "A"; lit "B"] 0
    (Some [ada_row])
  = ([ada_row],
     [Query Crossref (lit "A"); Saved [ada_row];
      Query Crossref (lit "B"); Saved [ada_row]]).
Proof.
  apply (pass_without_metadata_rewrites_loaded_rows (U := sample_db)
           (env := openalex_knows) [lit "A"; lit "B"] 0 (Some [ada_row])).
  intros title _. left. reflexivity.
Defined.

(** X18 on a paper with two authors. *)
Lemma one_row_per_author_witness :
  map key_of [ada_row; charles_row]
  = [(lit "Notes", lit "Ada Lovelace", lit "10.1000/notes");
     (lit "Notes", lit "Charles Babbage", lit "10.1000/notes")].
Proof.
  apply (one_row_per_author (U := sample_db) two_sources (lit "Notes") []
           (s' := [ada_row; charles_row])
           (log := [Query Crossref (lit "Notes"); Appended ada_row;
                    Query OpenAlex (lit "10.1000/notes");
                    Appended charles_row; Saved [ada_row; charles_row]])
           eq_refl).
  reflexivity.
Defined.

(** X19 on two titles, split after the first. *)
Lemma pass_from_index_continues_earlier_pass_witness :
  fst (process_papers (U := sample_db) two_sources [lit "Notes"; lit "More"]
         1 (Some [ada_row; charles_row]))
  = fst (process_papers (U := sample_db) two_sources
           [lit "Notes"; lit "More"] 0 None)
  /\ snd (process_papers (U := sample_db) two_sources
            [lit "Notes"; lit "More"] 0 None)
     = snd (process_papers (U := sample_db) two_sources
              (firstn 1 [lit "Notes"; lit "More"]) 0 None)
       ++ snd (process_papers (U := sample_db) two_sources
                 [lit "Notes"; lit "More"] 1
                 (Some [ada_row; charles_row])).
Proof.
  apply (pass_from_index_continues_earlier_pass (U := sample_db)
           two_sources [lit "Notes"; lit "More"] 1 None
           (loaded := [ada_row; charles_row])).
  reflexivity.
Defined.

(** X20 on a lookup that returns two pairs. *)
Lemma openalex_lookup_returns_complete_pairs_witness :
  [(lit "Charles Babbage", lit "University of Cambridge");
   (lit "Luigi Menabrea", lit "University of Turin")] <> []
  /\ Forall both_present
       [(lit "Charles Babbage", lit "University of Cambridge");
        (lit "Luigi Menabrea", lit "University of Turin")].
Proof.
  destruct (openalex_lookup_returns_complete_pairs openalex_knows
              (Some (lit "10.1000/notes")) [])
    as [_ [_ H]].
  apply H. reflexivity.
Defined.

(** X21 on a lookup whose answer has an empty affiliation and an author
    without a name. *)
Lemma semantic_scholar_lookup_returns_complete_pairs_witness :
  [(lit "Ada Lovelace", lit "Analytical Society")] <> []
  /\ Forall both_present [(lit "Ada Lovelace", lit "Analytical Society")].
Proof.
  destruct (semantic_scholar_lookup_returns_complete_pairs s2_knows
              (Some (lit "10.1000/notes")) [])
    as [_ [_ H]].
  apply H. reflexivity.
Defined.

(** X22 on a name in another case inside a longer one. *)
Lemma names_match_by_containment_either_way_witness :
  name_matches (U := sample_db) (lit "ADA") (lit "Ada Lovelace") = true.
Proof.
  destruct (names_match_by_containment_either_way (U := sample_db)
              (lit "ADA") (lit "Ada Lovelace")) as [H _].
  apply H. left. exists [], (lit " lovelace"). reflexivity.
Defined.

(** X23 on a title that is clean already. *)
Lemma cleaned_title_is_trimmed_witness :
  clean_title (lit "Notes on the engine") = lit "Notes on the engine".
Proof.
  destruct (cleaned_title_is_trimmed (lit "Notes on the engine"))
    as [_ [_ H]].
  apply H; [split |]; reflexivity.
Defined.

End ResolverFacts.
